(** * multi-client-threaded-server: the record store, the audit log, the
      command interpreter and the connection worker of [server.c], with
      the line client of [client.c] and the channel helpers of [common.c].

    The C program keeps two binary files of packed fixed-width structs
    (the Pokemon reference store, read-only, and the Trainer store) and a
    text log.  Each function below follows the C function of the same name:
    a file is its byte contents, an open descriptor is the contents with a
    file offset, a struct is a record that is written as and read from its
    bytes, an [int] is an integer kept within 32 bits, and a call that may
    not come back gives an [Outcome].  The store functions read and write
    through [safe_read] and [safe_write], which the program has in the
    form [common.h] and [common.c] give them together: two functions that
    call themselves.  The definitions come first; the lemmas and the
    theorems on the properties C1 to C10 of the specification follow. *)

From Stdlib Require Import String.
From Stdlib Require Import DecimalString.
From Stdlib Require DecimalZ.
From Stdlib Require Import ZArith List Lia Bool PeanoNat.
From coqutil Require Import Byte Word.LittleEndianList.
Import ListNotations.
Local Open Scope Z_scope.

(** ** Bytes, C strings and the [int] type *)

Abbreviation bytes := (list byte).

(** A string literal as the bytes of a C string (without the final NUL). *)
Definition str (s : string) : bytes := list_byte_of_string s.

Definition NUL : byte := Byte.x00.
Definition LF : byte := Byte.x0a.
Definition CR : byte := Byte.x0d.
Definition SP : byte := Byte.x20.

Definition byte_eqb (a b : byte) : bool := Byte.eqb a b.

Fixpoint bytes_eqb (a b : bytes) : bool :=
  match a, b with
  | [], [] => true
  | x :: a', y :: b' => byte_eqb x y && bytes_eqb a' b'
  | _, _ => false
  end.

(** [strcmp(a, b) == 0] on two C strings. *)
Definition streq (a b : bytes) : bool := bytes_eqb a b.

(** The contents of a char array read as a C string: up to the first NUL. *)
Fixpoint c_str (a : bytes) : bytes :=
  match a with
  | [] => []
  | c :: a' => if byte_eqb c NUL then [] else c :: c_str a'
  end.

Definition INT_MAX : Z := 2147483647.
Definition INT_MIN : Z := -2147483648.

(** A 32-bit [int]: the value of a mathematical integer after two's
    complement wrap-around, which is what the target of the build makes of
    an [int] sum that leaves the range and of a [long] cut to [int]. *)
Definition to_int (z : Z) : Z := (z + 2 ^ 31) mod 2 ^ 32 - 2 ^ 31.

Definition int_range (z : Z) : Prop := INT_MIN <= z <= INT_MAX.

(** An [int] field of a packed struct: four bytes, least significant first. *)
Definition encode_int (z : Z) : bytes := le_split 4 z.
Definition decode_int (b : bytes) : Z := to_int (le_combine b).

(** ** Slices of a buffer *)

Definition sub (off len : nat) (l : bytes) : bytes := firstn len (skipn off l).

(** An array of exactly [n] cells: [l] cut or filled with [d]. *)
Definition fit {A : Type} (d : A) (n : nat) (l : list A) : list A :=
  firstn n (l ++ repeat d n).

(** ** Files, descriptors and calls that do not come back

    A regular file is its contents; an open descriptor adds the offset; a
    descriptor that [open] did not give (-1) is [None]. *)

Record File : Type := mkFile { f_data : bytes; f_pos : nat }.

Definition Fd : Type := option File.

Definition open_file (data : bytes) : File := mkFile data 0.

(** [lseek(fd, off, SEEK_SET)]; on -1 it fails and nothing looks at that. *)
Definition lseek_set (fd : Fd) (off : nat) : Fd :=
  option_map (fun f => mkFile (f_data f) off) fd.

(** What a call gives: a result, or none.  [Stuck s] is a call that does
    not come back, however long it is followed, or that reaches a point
    where C gives the program no behaviour (an index outside an array, an
    [int] sum out of range, a string that does not end inside its object);
    [s] is the state of the files at that point. *)
Inductive Outcome (S A : Type) : Type :=
  | Returned (a : A)
  | Stuck (s : S).

Arguments Returned {S A} a.
Arguments Stuck {S A} s.

(** What the calls below find around them: how far an execution is
    followed (the depth of nested calls and the turns of a loop), whether
    [errno] holds [EINTR] where it is tested, whether [trainers.tmp] can be
    created or truncated, and whether the [rename] at the end of
    [delete_trainer] succeeds. *)
Record Env : Type := mkEnv {
  budget : nat;
  errno_eintr : bool;
  tmp_creatable : bool;
  rename_ok : bool
}.

(** ** [safe_read] and [safe_write] as the program has them

    [common.h] has [#define safe_read read] and [#define safe_write write]
    before the prototypes, and [common.c] includes it before it defines
    the two functions; so what it defines are functions named [read] and
    [write], and the call in the loop of each, written as a system call,
    is a call of the function itself.  [server.c] includes the same header,
    so its [safe_read] and [safe_write] calls are calls of these two
    functions, with which the server is linked ([server: server.o
    common.o]).  No system call that transfers bytes is behind them. *)

(** The loop of the function: [call] is a call of [read], [buf] the bytes
    stored so far. *)
Fixpoint safe_read_loop (turns : nat) (eintr : bool)
    (call : Fd -> nat -> Outcome Fd (Z * bytes * Fd))
    (fd : Fd) (size total : nat) (buf : bytes) : Outcome Fd (Z * bytes * Fd) :=
  match turns with
  | O => Stuck fd
  | S k =>
      if (total <? size)%nat then
        match call fd (size - total)%nat with
        | Stuck fd' => Stuck fd'
        | Returned (n, got, fd') =>
            if n <? 0 then
              if eintr then safe_read_loop k eintr call fd' size total buf
              else Returned (-1, buf, fd')
            else if n =? 0 then Returned (Z.of_nat total, buf, fd')
            else safe_read_loop k eintr call fd' size (total + Z.to_nat n)%nat (buf ++ got)
        end
      else Returned (Z.of_nat total, buf, fd)
  end.

(** The function with room for [depth] nested calls: the return value, the
    bytes stored and the descriptor. *)
Fixpoint safe_read_at (depth : nat) (eintr : bool) (fd : Fd) (size : nat)
    : Outcome Fd (Z * bytes * Fd) :=
  match depth with
  | O => Stuck fd
  | S d => safe_read_loop (S d) eintr (safe_read_at d eintr) fd size 0 []
  end.

Definition safe_read (env : Env) (fd : Fd) (size : nat)
    : Outcome Fd (Z * bytes * Fd) :=
  safe_read_at (budget env) (errno_eintr env) fd size.

(** The loop of [safe_write]: [call] is a call of [write] on what is left
    of the buffer. *)
Fixpoint safe_write_loop (turns : nat) (eintr : bool)
    (call : Fd -> bytes -> Outcome Fd (Z * Fd))
    (fd : Fd) (buf : bytes) (total : nat) : Outcome Fd (Z * Fd) :=
  match turns with
  | O => Stuck fd
  | S k =>
      if (total <? length buf)%nat then
        match call fd (skipn total buf) with
        | Stuck fd' => Stuck fd'
        | Returned (n, fd') =>
            if n <=? 0 then
              if eintr then safe_write_loop k eintr call fd' buf total
              else Returned (-1, fd')
            else safe_write_loop k eintr call fd' buf (total + Z.to_nat n)%nat
        end
      else Returned (Z.of_nat total, fd)
  end.

Fixpoint safe_write_at (depth : nat) (eintr : bool) (fd : Fd) (buf : bytes)
    : Outcome Fd (Z * Fd) :=
  match depth with
  | O => Stuck fd
  | S d => safe_write_loop (S d) eintr (safe_write_at d eintr) fd buf 0
  end.

Definition safe_write (env : Env) (fd : Fd) (buf : bytes) : Outcome Fd (Z * Fd) :=
  safe_write_at (budget env) (errno_eintr env) fd buf.

(** ** The Trainer record (trainer.h), packed, 82 bytes *)

Definition MAX_POKEMON : Z := 6.
Definition NAME_LEN : nat := 50.
Definition sizeof_Trainer : nat := 82.
Definition sizeof_Pokemon : nat := 244.

Record Trainer : Type := mkTrainer {
  t_id : Z;                  (* int id *)
  t_name : bytes;            (* char name[50] *)
  t_pokemon_ids : list Z;    (* int pokemon_ids[MAX_POKEMON] *)
  t_count : Z                (* int count *)
}.

Definition encode_trainer (t : Trainer) : bytes :=
  encode_int (t_id t)
  ++ fit NUL NAME_LEN (t_name t)
  ++ flat_map encode_int (fit 0 6 (t_pokemon_ids t))
  ++ encode_int (t_count t).

Definition decode_trainer (c : bytes) : Trainer :=
  mkTrainer (decode_int (sub 0 4 c))
            (sub 4 NAME_LEN c)
            (map (fun i => decode_int (sub (54 + 4 * i) 4 c)) (seq 0 6))
            (decode_int (sub 78 4 c)).

(** What the type of the struct guarantees of a value held in memory. *)
Definition wf_trainer (t : Trainer) : Prop :=
  int_range (t_id t) /\ length (t_name t) = NAME_LEN /\
  length (t_pokemon_ids t) = 6%nat /\ Forall int_range (t_pokemon_ids t) /\
  int_range (t_count t).

(** ** The Pokemon record (pokemon.h), packed, 244 bytes.  The server looks
    at the key and prints the three text fields that follow it; a record
    in memory is kept as its 244 bytes, of which these are the first 94. *)

Record Pokemon : Type := mkPokemon {
  p_id : Z;          (* int id, offset 0 *)
  p_name : bytes;    (* char name[50], offset 4 *)
  p_type1 : bytes;   (* char type1[20], offset 54 *)
  p_type2 : bytes    (* char type2[20], offset 74 *)
}.

Definition decode_pokemon (c : bytes) : Pokemon :=
  mkPokemon (decode_int (sub 0 4 c)) (sub 4 50 c) (sub 54 20 c) (sub 74 20 c).

(** ** Record store accessors (server.c)

    Every loop below is of the form
    [while (safe_read(fd, &r, sizeof(r)) == sizeof(r)) ...]: one call of
    [safe_read] per turn, and the loop goes on while the call returns the
    size of a record. *)

(** The loop of [get_pokemon_by_id]; [*r = p] gives the record as its
    bytes. *)
Fixpoint get_pokemon_scan (turns : nat) (env : Env) (fd : Fd) (id : Z)
    : Outcome Fd (option bytes * Fd) :=
  match turns with
  | O => Stuck fd
  | S k =>
      match safe_read env fd sizeof_Pokemon with
      | Stuck fd' => Stuck fd'
      | Returned (n, p, fd') =>
          if n =? Z.of_nat sizeof_Pokemon then
            if p_id (decode_pokemon p) =? id then Returned (Some p, fd')
            else get_pokemon_scan k env fd' id
          else Returned (None, fd')
      end
  end.

Definition get_pokemon_by_id (env : Env) (fd : Fd) (id : Z)
    : Outcome Fd (option bytes * Fd) :=
  get_pokemon_scan (budget env) env (lseek_set fd 0) id.

(** The loop of [get_trainer_by_id]. *)
Fixpoint get_trainer_scan (turns : nat) (env : Env) (fd : Fd) (id : Z)
    : Outcome Fd (option Trainer * Fd) :=
  match turns with
  | O => Stuck fd
  | S k =>
      match safe_read env fd sizeof_Trainer with
      | Stuck fd' => Stuck fd'
      | Returned (n, got, fd') =>
          if n =? Z.of_nat sizeof_Trainer then
            let t := decode_trainer got in
            if t_id t =? id then Returned (Some t, fd')
            else get_trainer_scan k env fd' id
          else Returned (None, fd')
      end
  end.

Definition get_trainer_by_id (env : Env) (fd : Fd) (id : Z)
    : Outcome Fd (option Trainer * Fd) :=
  get_trainer_scan (budget env) env (lseek_set fd 0) id.

(** The [for] loop of [validate_pokemon_ids] over [ids[0 .. count-1]]. *)
Fixpoint validate_loop (env : Env) (fd : Fd) (ids : list Z) : Outcome Fd bool :=
  match ids with
  | [] => Returned true
  | i :: rest =>
      match get_pokemon_by_id env fd i with
      | Stuck fd' => Stuck fd'
      | Returned (None, _) => Returned false
      | Returned (Some _, fd') => validate_loop env fd' rest
      end
  end.

(** [pokemon_file] is what [open(pokemon_file, O_RDONLY)] finds: [None] when
    the file cannot be opened. *)
Definition validate_pokemon_ids (env : Env) (pokemon_file : option bytes)
    (ids : list Z) (count : Z) : Outcome Fd bool :=
  match pokemon_file with
  | None => Returned false
  | Some d => validate_loop env (Some (open_file d)) (firstn (Z.to_nat count) ids)
  end.

(** [for (i = 0; i < count; i++) dst[i] = src[i];] *)
Fixpoint copy_ids (src dst : list Z) (n : nat) : list Z :=
  match n, src, dst with
  | S k, s :: src', _ :: dst' => s :: copy_ids src' dst' k
  | _, _, _ => dst
  end.

(** [strncpy(dst, src, n)]: the characters of [src] up to its NUL, at most
    [n] of them, the rest of the [n] bytes filled with NUL; [dst] beyond
    [n] is left as it was. *)
Definition strncpy (dst src : bytes) (n : nat) : bytes :=
  fit NUL n (c_str src) ++ skipn n dst.

(** [memset(&t, 0, sizeof(t))] *)
Definition zero_trainer : Trainer :=
  mkTrainer 0 (repeat NUL NAME_LEN) (repeat 0 6%nat) 0.

(** The key-max loop of [add_trainer_with_validation]. *)
Fixpoint max_id_scan (turns : nat) (env : Env) (fd : Fd) (max_id : Z)
    : Outcome Fd (Z * Fd) :=
  match turns with
  | O => Stuck fd
  | S k =>
      match safe_read env fd sizeof_Trainer with
      | Stuck fd' => Stuck fd'
      | Returned (n, got, fd') =>
          if n =? Z.of_nat sizeof_Trainer then
            let tmp := decode_trainer got in
            max_id_scan k env fd' (if t_id tmp >? max_id then t_id tmp else max_id)
          else Returned (max_id, fd')
      end
  end.

(** The record [add_trainer_with_validation] builds before writing it, for
    a [max_id] below [INT_MAX]. *)
Definition new_trainer (max_id : Z) (name : bytes) (ids : list Z) (count : Z)
    : Trainer :=
  let t := zero_trainer in
  mkTrainer (max_id + 1)
            (strncpy (t_name t) name (NAME_LEN - 1))
            (copy_ids ids (t_pokemon_ids t) (Z.to_nat count))
            count.

(** [add_trainer_with_validation]: the return value and the descriptor.
    [max_id + 1] is an [int] sum, without a result at [INT_MAX]. *)
Definition add_trainer_with_validation (env : Env) (pokemon_file : option bytes)
    (trainer_fd : Fd) (name : bytes) (ids : list Z) (count : Z)
    : Outcome Fd (Z * Fd) :=
  if (count <=? 0) || (count >? MAX_POKEMON) then Returned (-1, trainer_fd)
  else
    match validate_pokemon_ids env pokemon_file ids count with
    | Stuck _ => Stuck trainer_fd
    | Returned false => Returned (-1, trainer_fd)
    | Returned true =>
        match max_id_scan (budget env) env (lseek_set trainer_fd 0) 0 with
        | Stuck fd => Stuck fd
        | Returned (max_id, fd2) =>
            if max_id =? INT_MAX then Stuck fd2
            else
              let t := new_trainer max_id name ids count in
              match safe_write env fd2 (encode_trainer t) with
              | Stuck fd => Stuck fd
              | Returned (n, fd3) =>
                  if negb (n =? Z.of_nat sizeof_Trainer) then Returned (-1, fd3)
                  else Returned (t_id t, fd3)
              end
        end
    end.

(** The record [update_trainer_with_validation] writes back over [t]. *)
Definition updated_trainer (t : Trainer) (ids : list Z) (count : Z) : Trainer :=
  mkTrainer (t_id t) (t_name t)
            (copy_ids ids (t_pokemon_ids t) (Z.to_nat count)) count.

(** The loop of [update_trainer_with_validation]; [pos] is the byte offset
    of the record about to be read. *)
Fixpoint update_scan (turns : nat) (env : Env) (fd : Fd) (id : Z) (ids : list Z)
    (count : Z) (pos : nat) : Outcome Fd (Z * Fd) :=
  match turns with
  | O => Stuck fd
  | S k =>
      match safe_read env fd sizeof_Trainer with
      | Stuck fd' => Stuck fd'
      | Returned (n, got, fd') =>
          if n =? Z.of_nat sizeof_Trainer then
            let t := decode_trainer got in
            if t_id t =? id then
              match safe_write env (lseek_set fd' pos)
                      (encode_trainer (updated_trainer t ids count)) with
              | Stuck fd'' => Stuck fd''
              | Returned (w, fd'') =>
                  if negb (w =? Z.of_nat sizeof_Trainer) then Returned (0, fd'')
                  else Returned (1, fd'')
              end
            else update_scan k env fd' id ids count (pos + sizeof_Trainer)%nat
          else Returned (0, fd')
      end
  end.

Definition update_trainer_with_validation (env : Env) (pokemon_file : option bytes)
    (trainer_fd : Fd) (id : Z) (ids : list Z) (count : Z) : Outcome Fd (Z * Fd) :=
  if (count <=? 0) || (count >? MAX_POKEMON) then Returned (0, trainer_fd)
  else
    match validate_pokemon_ids env pokemon_file ids count with
    | Stuck _ => Stuck trainer_fd
    | Returned false => Returned (0, trainer_fd)
    | Returned true =>
        update_scan (budget env) env (lseek_set trainer_fd 0) id ids count 0
    end.

(** The loop of [delete_trainer]: copy every record but the one with key [id]
    from [src] to [tmp]; the value of [safe_write] is not looked at.  The
    state is the temporary file. *)
Fixpoint delete_scan (turns : nat) (env : Env) (src tmp : Fd) (id : Z) (found : Z)
    : Outcome Fd (Z * Fd) :=
  match turns with
  | O => Stuck tmp
  | S k =>
      match safe_read env src sizeof_Trainer with
      | Stuck _ => Stuck tmp
      | Returned (n, got, src') =>
          if n =? Z.of_nat sizeof_Trainer then
            let t := decode_trainer got in
            if negb (t_id t =? id) then
              match safe_write env tmp (encode_trainer t) with
              | Stuck tmp' => Stuck tmp'
              | Returned (_, tmp') => delete_scan k env src' tmp' id found
              end
            else delete_scan k env src' tmp id 1
          else Returned (found, tmp)
      end
  end.

(** ** Text formatting *)

(** [%d] *)
Definition fmt_d (z : Z) : bytes := str (NilZero.string_of_int (Z.to_int z)).

(** [snprintf(buf, size, ...)] of an already formatted text: at most
    [size - 1] characters are stored. *)
Definition snprintf (size : nat) (text : bytes) : bytes := firstn (size - 1) text.

(** [strncat(dst, src, n)]: at most [n] characters of the C string [src]. *)
Definition strncat (dst src : bytes) (n : nat) : bytes := dst ++ firstn n (c_str src).

(** The two non-ASCII characters of the messages, in UTF-8. *)
Definition E_ACUTE : bytes := [Byte.xc3; Byte.xa9].
Definition EM_DASH : bytes := [Byte.xe2; Byte.x80; Byte.x94].
Definition POKEMON_WORD : bytes := str "Pok" ++ E_ACUTE ++ str "mon".

Definition is_digit (c : byte) : bool :=
  (48 <=? byte.unsigned c) && (byte.unsigned c <=? 57).

(** [isspace]: space, and tab to carriage return. *)
Definition is_space (c : byte) : bool :=
  (byte.unsigned c =? 32) || ((9 <=? byte.unsigned c) && (byte.unsigned c <=? 13)).

Fixpoint skip_space (s : bytes) : bytes :=
  match s with
  | c :: s' => if is_space c then skip_space s' else s
  | [] => []
  end.

Fixpoint digits_value (acc : Z) (s : bytes) : Z :=
  match s with
  | c :: s' =>
      if is_digit c then digits_value (acc * 10 + (byte.unsigned c - 48)) s' else acc
  | [] => acc
  end.

Definition LONG_MAX : Z := 9223372036854775807.
Definition LONG_MIN : Z := -9223372036854775808.

(** [strtol(s, NULL, 10)]: the value, kept within [long]. *)
Definition strtol (s : bytes) : Z :=
  let v := match skip_space s with
           | c :: r =>
               if byte_eqb c Byte.x2d then - digits_value 0 r
               else if byte_eqb c Byte.x2b then digits_value 0 r
               else digits_value 0 (c :: r)
           | [] => 0
           end in
  Z.max LONG_MIN (Z.min LONG_MAX v).

(** [atoi(s)] is [(int) strtol(s, NULL, 10)]. *)
Definition atoi (s : bytes) : Z := to_int (strtol s).

(** ** The audit log (server.c) *)

(** The line [log_request] prints, without and with its newline: [tbuf] is
    the clock as [strftime] gave it. *)
Definition log_body (tbuf ip : bytes) (port : Z) (cmd : bytes) : bytes :=
  str "[" ++ tbuf ++ str "] Client " ++ ip ++ str ":" ++ fmt_d port
  ++ str " issued command: " ++ cmd.

Definition log_line (tbuf ip : bytes) (port : Z) (cmd : bytes) : bytes :=
  log_body tbuf ip port cmd ++ [LF].

(** [log_request]: the log is what [fopen(log_path, "a")] finds, [None] when
    it cannot be opened; then nothing is written. *)
Definition log_request (log : option bytes) (tbuf ip : bytes) (port : Z)
    (cmd : bytes) : option bytes :=
  match log with
  | None => None
  | Some l => Some (l ++ log_line tbuf ip port cmd)
  end.

(** The characters one [fgets] call stores, and what is left of the stream:
    it stops after a newline or when [room] characters are stored. *)
Fixpoint fgets_take (room : nat) (s : bytes) : bytes * bytes :=
  match room, s with
  | O, _ => ([], s)
  | _, [] => ([], [])
  | S r, c :: s' =>
      if byte_eqb c LF then ([c], s')
      else let (l, rest) := fgets_take r s' in (c :: l, rest)
  end.

(** [fgets(buf, size, fp)]: [None] at the end of the file. *)
Definition fgets (size : nat) (s : bytes) : option (bytes * bytes) :=
  match s with
  | [] => None
  | _ => Some (fgets_take (size - 1) s)
  end.

(** [while (fgets(buf, sizeof(buf), fp)) lines++;] *)
Fixpoint count_lines (fuel : nat) (s : bytes) (lines : Z) : Z :=
  match fuel with
  | O => lines
  | S k =>
      match fgets 1024 s with
      | None => lines
      | Some (_, rest) => count_lines k rest (to_int (lines + 1))
      end
  end.

(** [while (skip-- > 0 && fgets(buf, sizeof(buf), fp));] *)
Fixpoint skip_lines (fuel : nat) (s : bytes) (skip : Z) : bytes :=
  match fuel with
  | O => s
  | S k =>
      if skip >? 0 then
        match fgets 1024 s with
        | None => s
        | Some (_, rest) => skip_lines k rest (skip - 1)
        end
      else s
  end.

(** [while (fgets(...)) strncat(outbuf, buf, outsz - strlen(outbuf) - 1);] *)
Fixpoint cat_lines (fuel : nat) (s : bytes) (outsz : nat) (outbuf : bytes) : bytes :=
  match fuel with
  | O => outbuf
  | S k =>
      match fgets 1024 s with
      | None => outbuf
      | Some (buf, rest) =>
          cat_lines k rest outsz (strncat outbuf buf (outsz - length outbuf - 1))
      end
  end.

(** [read_last_n_lines(outbuf, outsz, n)]: the return value and [outbuf]. *)
Definition read_last_n_lines (log : option bytes) (outsz : nat) (n : Z)
    : Z * bytes :=
  match log with
  | None => (0, snprintf outsz (str "No log file or cannot open log."))
  | Some l =>
      let fuel := S (length l) in
      let lines := count_lines fuel l 0 in
      if lines =? 0 then (0, snprintf outsz (str "Log file is empty."))
      else
        let skip := if lines >? n then to_int (lines - n) else 0 in
        (1, cat_lines fuel (skip_lines fuel l skip) outsz [])
  end.

(** ** The framed byte channel (common.c) *)

Definition BUFFER_SIZE : nat := Z.to_nat 8192.

(** What one [recv(sockfd, &c, 1, 0)] call can give: a byte, an interrupted
    call, or a transport error.  The incoming side of a connection is the
    list of these in the order the calls see them; at its end the peer has
    closed and [recv] returns 0. *)
Inductive RecvEv : Type :=
  | Rx (c : byte)
  | Eintr
  | Econn.

(** The loop of [recv_line]; [buffer] holds the [pos] bytes stored so far.
    The result is the return value, the buffer and the rest of the input. *)
Fixpoint recv_line_loop (sock : list RecvEv) (maxlen : nat) (buffer : bytes)
    : Z * bytes * list RecvEv :=
  match sock with
  | [] => (0, buffer, [])
  | Eintr :: rest => recv_line_loop rest maxlen buffer
  | Econn :: rest => (-1, buffer, rest)
  | Rx c :: rest =>
      let buffer' := buffer ++ [c] in
      if byte_eqb c LF then (Z.of_nat (length buffer'), buffer', rest)
      else if (length buffer' =? maxlen - 1)%nat
           then (Z.of_nat (length buffer'), buffer', rest)
           else recv_line_loop rest maxlen buffer'
  end.

Definition recv_line (sock : list RecvEv) (maxlen : nat)
    : Z * bytes * list RecvEv :=
  if (0 <? maxlen - 1)%nat then recv_line_loop sock maxlen [] else (0, [], sock).

(** [send_all(sockfd, buffer)] on a connection whose outgoing side is up
    ([ok]) or broken: the return value.  Its loop repeats [send] until the
    whole text is out, so the bytes the peer gets are [delivered]. *)
Definition send_all (ok : bool) (buffer : bytes) : Z :=
  match c_str buffer with
  | [] => 0
  | text => if ok then Z.of_nat (length text) else -1
  end.

Definition delivered (ok : bool) (buffer : bytes) : bytes :=
  if ok then c_str buffer else [].

(** [trim_newline]: the C string ends at its first CR or LF. *)
Fixpoint trim_newline (s : bytes) : bytes :=
  match s with
  | [] => []
  | c :: s' => if byte_eqb c CR || byte_eqb c LF then [] else c :: trim_newline s'
  end.

(** ** The command interpreter (client_thread in server.c) *)

(** The tokens [strtok(_, " ")] yields one after the other: the maximal runs
    of characters other than the space. *)
Fixpoint tokens (s : bytes) : list bytes :=
  match s with
  | [] => []
  | c :: s' =>
      if byte_eqb c SP then tokens s'
      else match s' with
           | [] => [[c]]
           | d :: _ =>
               if byte_eqb d SP then [c] :: tokens s'
               else match tokens s' with
                    | t :: ts => (c :: t) :: ts
                    | [] => [[c]]
                    end
           end
  end.

(** [args[0 .. argc-1]]: the loop stops at 20 tokens. *)
Definition tokenize (command : bytes) : list bytes := firstn 20 (tokens command).

(** The files the server works on: those at the three paths it was started
    with and [trainers.tmp] in its working directory, four different
    files.  [None] is a path that [open] or [fopen] fails on, and for
    [trainers.tmp] a file that is not there. *)
Record Disk : Type := mkDisk {
  pokemon_path : option bytes;
  trainer_path : option bytes;
  log_path : option bytes;
  tmp_path : option bytes
}.

Definition set_trainer (d : Disk) (t : option bytes) : Disk :=
  mkDisk (pokemon_path d) t (log_path d) (tmp_path d).

Definition set_log (d : Disk) (l : option bytes) : Disk :=
  mkDisk (pokemon_path d) (trainer_path d) l (tmp_path d).

Definition set_tmp (d : Disk) (t : option bytes) : Disk :=
  mkDisk (pokemon_path d) (trainer_path d) (log_path d) t.

(** The trainer file as a descriptor on it leaves it. *)
Definition set_store (d : Disk) (fd : Fd) : Disk :=
  match fd with
  | Some f => set_trainer d (Some (f_data f))
  | None => d
  end.

(** [delete_trainer(path, id)] with the trainer file as [path]: the two
    files are opened, [trainers.tmp] with [O_CREAT|O_TRUNC], before either
    descriptor is looked at; after the loop [trainers.tmp] is renamed to
    [path], and the value of [rename] is not looked at. *)
Definition delete_trainer (env : Env) (d : Disk) (id : Z) : Outcome Disk (Z * Disk) :=
  let src := option_map open_file (trainer_path d) in
  let tmp := if tmp_creatable env then Some (open_file []) else None in
  let d1 := if tmp_creatable env then set_tmp d (Some []) else d in
  match src, tmp with
  | Some _, Some _ =>
      match delete_scan (budget env) env src tmp id 0 with
      | Stuck tmp' => Stuck (set_tmp d1 (option_map f_data tmp'))
      | Returned (found, tmp') =>
          let written := option_map f_data tmp' in
          if rename_ok env
          then Returned (found, mkDisk (pokemon_path d) written (log_path d) None)
          else Returned (found, set_tmp d1 written)
      end
  | _, _ => Returned (0, d1)
  end.

(** What [%s] prints for a char array inside a struct: the bytes from the
    start of the array to the first NUL, also when that NUL lies in a later
    field.  [mem] is the struct and [off] the offset of the array; without
    a NUL from there on the string does not end inside the struct. *)
Definition text_at (mem : bytes) (off : nat) : option bytes :=
  let m := skipn off mem in
  if existsb (fun c => byte_eqb c NUL) m then Some (c_str m) else None.

(** The entry of one Pokemon, from its 244 bytes:
    [snprintf(entry, sizeof(entry), "  - [%d] %s (%s/%s)\n", ...)]. *)
Definition team_entry (p : bytes) : option bytes :=
  match text_at p 4, text_at p 54, text_at p 74 with
  | Some name, Some type1, Some type2 =>
      Some (snprintf 128
              (str "  - [" ++ fmt_d (p_id (decode_pokemon p)) ++ str "] " ++ name
               ++ str " (" ++ type1 ++ str "/"
               ++ match type2 with [] => EM_DASH | s => s end
               ++ str ")" ++ [LF]))
  | _, _, _ => None
  end.

(** The team loop of [get trainer <id>]:
    [for (int i = 0; i < t.count; i++)] over [t.pokemon_ids[i]]; [ids] are
    the cells of the array from [i] on and [n] the turns left. *)
Fixpoint team_loop (env : Env) (d : Disk) (pfd : Fd) (ids : list Z) (n : nat)
    (team : bytes) : Outcome Disk bytes :=
  match n with
  | O => Returned team
  | S n' =>
      match ids with
      | [] => Stuck d
      | i :: rest =>
          match get_pokemon_by_id env pfd i with
          | Stuck _ => Stuck d
          | Returned (Some p, pfd') =>
              match team_entry p with
              | None => Stuck d
              | Some entry =>
                  team_loop env d pfd' rest n'
                            (strncat team entry (512 - length team - 1))
              end
          | Returned (None, pfd') => team_loop env d pfd' rest n' team
          end
      end
  end.

(** The listing loop of [get trainer]. *)
Fixpoint list_scan (turns : nat) (env : Env) (d : Disk) (fd : Fd) (out : bytes)
    : Outcome Disk bytes :=
  match turns with
  | O => Stuck d
  | S k =>
      match safe_read env fd sizeof_Trainer with
      | Stuck _ => Stuck d
      | Returned (n, got, fd') =>
          if n =? Z.of_nat sizeof_Trainer then
            let t := decode_trainer got in
            match text_at got 4 with
            | None => Stuck d
            | Some name =>
                let line := snprintf 128
                  (str "  #" ++ fmt_d (t_id t) ++ str " " ++ name ++ str " ("
                   ++ fmt_d (t_count t) ++ str " " ++ POKEMON_WORD ++ str ")" ++ [LF]) in
                list_scan k env d fd' (strncat out line (1024 - length out - 1))
            end
          else Returned out
      end
  end.

Definition arg (args : list bytes) (i : nat) : bytes := nth i args [].

Definition MSG_INVALID : bytes := str "Invalid command.".
Definition MSG_EMPTY : bytes := str "Empty command.".
Definition MSG_GOODBYE : bytes := str "Goodbye from server.".

(** The branch of [get trainer ...]: the text of the answer. *)
Definition get_trainer_cmd (env : Env) (d : Disk) (args : list bytes)
    : Outcome Disk bytes :=
  match trainer_path d with
  | None => Returned (str "Cannot open trainer DB.")
  | Some data =>
      let fd := Some (open_file data) in
      if (length args =? 3)%nat then
        let id := atoi (arg args 2) in
        match get_trainer_by_id env fd id with
        | Stuck _ => Stuck d
        | Returned (Some t, _) =>
            match pokemon_path d with
            | None => Returned (str "Cannot open " ++ POKEMON_WORD ++ str " DB.")
            | Some pdata =>
                match team_loop env d (Some (open_file pdata)) (t_pokemon_ids t)
                        (Z.to_nat (t_count t)) [] with
                | Stuck d' => Stuck d'
                | Returned team =>
                    match text_at (encode_trainer t) 4 with
                    | None => Stuck d
                    | Some name =>
                        Returned
                          (str "Trainer #" ++ fmt_d (t_id t) ++ str ": " ++ name
                           ++ [LF] ++ POKEMON_WORD ++ str " count: " ++ fmt_d (t_count t)
                           ++ [LF] ++ POKEMON_WORD ++ str " Team:" ++ [LF] ++ team)
                    end
                end
            end
        | Returned (None, _) =>
            Returned (str "Trainer " ++ fmt_d id ++ str " not found.")
        end
      else list_scan (budget env) env d fd (str "All Trainers:" ++ [LF])
  end.

(** The branch of [post trainer ...]: the text of the answer and the
    files.  The descriptor of the trainer file is handed on as [open] gave
    it. *)
Definition post_trainer_cmd (env : Env) (d : Disk) (args : list bytes)
    : Outcome Disk (bytes * Disk) :=
  let count := Z.of_nat (length args) - 3 in
  if count >? MAX_POKEMON then
    Returned (str "Invalid command: Trainer cannot have more than "
              ++ fmt_d MAX_POKEMON ++ str " " ++ POKEMON_WORD ++ str ".", d)
  else
    let ids := map atoi (skipn 3 args) in
    let fd := option_map open_file (trainer_path d) in
    match add_trainer_with_validation env (pokemon_path d) fd (arg args 2) ids count with
    | Stuck fd' => Stuck (set_store d fd')
    | Returned (new_id, fd') =>
        if new_id <? 0 then
          Returned (str "Invalid command: Failed validation (check " ++ POKEMON_WORD
                    ++ str " IDs).", set_store d fd')
        else
          Returned (str "Trainer added successfully. ID=" ++ fmt_d new_id,
                    set_store d fd')
    end.

(** The branch of [put trainer ...]. *)
Definition put_trainer_cmd (env : Env) (d : Disk) (args : list bytes)
    : Outcome Disk (bytes * Disk) :=
  let id := atoi (arg args 2) in
  let count := Z.of_nat (length args) - 3 in
  if count >? MAX_POKEMON then
    Returned (str "Invalid command: Max " ++ POKEMON_WORD ++ str " = "
              ++ fmt_d MAX_POKEMON ++ str ".", d)
  else
    let ids := map atoi (skipn 3 args) in
    let fd := option_map open_file (trainer_path d) in
    match update_trainer_with_validation env (pokemon_path d) fd id ids count with
    | Stuck fd' => Stuck (set_store d fd')
    | Returned (ok, fd') =>
        if ok =? 0 then
          Returned (str "Trainer " ++ fmt_d id ++ str " not updated.", set_store d fd')
        else Returned (str "Trainer " ++ fmt_d id ++ str " updated.", set_store d fd')
    end.

(** The branch of [delete trainer <id>]. *)
Definition delete_trainer_cmd (env : Env) (d : Disk) (args : list bytes)
    : Outcome Disk (bytes * Disk) :=
  let id := atoi (arg args 2) in
  match delete_trainer env d id with
  | Stuck d' => Stuck d'
  | Returned (ok, d') =>
      if ok =? 0 then Returned (str "Trainer " ++ fmt_d id ++ str " not found.", d')
      else Returned (str "Trainer " ++ fmt_d id ++ str " deleted.", d')
  end.

(** The branch of [get log <n>]. *)
Definition get_log_cmd (d : Disk) (args : list bytes) : bytes :=
  let n := atoi (arg args 2) in
  let n := if n <=? 0 then 10 else n in
  let (ok, out) := read_last_n_lines (log_path d) 4096 n in
  if ok =? 0 then str "Could not read log file." else out.

(** The answer of a branch that changes the files, as
    [snprintf(res.message, sizeof(res.message), ...)] stores it. *)
Definition answered (r : Outcome Disk (bytes * Disk))
    : Outcome Disk (bytes * Disk * bool) :=
  match r with
  | Stuck d => Stuck d
  | Returned (m, d) => Returned (snprintf BUFFER_SIZE m, d, false)
  end.

(** The [if ... else if ...] chain of [client_thread] on the tokens of one
    line: the text of [res.message], the files afterwards, and whether the
    branch leaves the loop ([break]). *)
Definition dispatch (env : Env) (d : Disk) (args : list bytes)
    : Outcome Disk (bytes * Disk * bool) :=
  let argc := length args in
  let msg (m : bytes) := snprintf BUFFER_SIZE m in
  if (argc =? 0)%nat then Returned (msg MSG_EMPTY, d, false)
  else if streq (arg args 0) (str "exit") then Returned (msg MSG_GOODBYE, d, true)
  else if (argc =? 3)%nat && streq (arg args 0) (str "get")
          && streq (arg args 1) (str "log")
  then Returned (msg (get_log_cmd d args), d, false)
  else if (2 <=? argc)%nat && streq (arg args 0) (str "get")
          && streq (arg args 1) (str "trainer")
  then match get_trainer_cmd env d args with
       | Stuck d' => Stuck d'
       | Returned m => Returned (msg m, d, false)
       end
  else if (4 <=? argc)%nat && streq (arg args 0) (str "post")
          && streq (arg args 1) (str "trainer")
  then answered (post_trainer_cmd env d args)
  else if (4 <=? argc)%nat && streq (arg args 0) (str "put")
          && streq (arg args 1) (str "trainer")
  then answered (put_trainer_cmd env d args)
  else if (argc =? 3)%nat && streq (arg args 0) (str "delete")
          && streq (arg args 1) (str "trainer")
  then answered (delete_trainer_cmd env d args)
  else Returned (msg MSG_INVALID, d, false).

(** ** The connection worker (client_thread in server.c) *)

(** [Crashed]: the turn did not come to its end; no later turn runs. *)
Inductive Phase : Type :=
  | Active
  | Closing
  | Crashed.

(** The peer of one connection, as [inet_ntop] and [ntohs] give it. *)
Record Peer : Type := mkPeer { peer_ip : bytes; peer_port : Z }.

(** What one turn of the loop observes of its surroundings: the [running]
    flag at the loop test, the clock text for the log line, and whether the
    outgoing side of the connection still takes data. *)
Record Turn : Type := mkTurn { running : bool; clock : bytes; send_ok : bool }.

(** One turn of [while (running) { ... }]: the phase after it, the rest of
    the incoming side, the files, and the bytes that reached the peer.  The
    value of [send_all] is computed and dropped, as in the C code. *)
Definition client_turn (env : Env) (p : Peer) (e : Turn) (sock : list RecvEv)
    (d : Disk) : Phase * list RecvEv * Disk * bytes :=
  if negb (running e) then (Closing, sock, d, [])
  else
    let '(r, buffer, sock') := recv_line sock BUFFER_SIZE in
    if r <=? 0 then (Closing, sock', d, [])
    else
      let buffer := trim_newline (c_str buffer) in
      let d1 := set_log d (log_request (log_path d) (clock e) (peer_ip p)
                             (peer_port p) buffer) in
      let command := snprintf BUFFER_SIZE buffer in
      match dispatch env d1 (tokenize command) with
      | Stuck d2 => (Crashed, sock', d2, [])
      | Returned (message, d2, stop) =>
          let _ := send_all (send_ok e) message in
          (if stop then Closing else Active, sock', d2, delivered (send_ok e) message)
      end.

(** The worker over the turns observed so far: it stops at the first turn
    that ends in [Closing] or [Crashed]; when the observations run out with
    the session still [Active] the worker is waiting in its loop. *)
Fixpoint client_thread (env : Env) (p : Peer) (turns : list Turn)
    (sock : list RecvEv) (d : Disk) (out : bytes)
    : Phase * list RecvEv * Disk * bytes :=
  match turns with
  | [] => (Active, sock, d, out)
  | e :: rest =>
      let '(ph, sock', d', sent) := client_turn env p e sock d in
      match ph with
      | Active => client_thread env p rest sock' d' (out ++ sent)
      | _ => (ph, sock', d', out ++ sent)
      end
  end.

(** ** What is left after a call, come back or not *)



(** The files after the interpreter has worked on a line. *)
Definition files_after (o : Outcome Disk (bytes * Disk * bool)) : Disk :=
  match o with
  | Returned (_, d, _) => d
  | Stuck d => d
  end.

(** Whether the interpreter leaves the loop after a line ([break]). *)
Definition stops (o : Outcome Disk (bytes * Disk * bool)) : bool :=
  match o with
  | Returned (_, _, stop) => stop
  | Stuck _ => false
  end.

(** The text of the answer, when there is one. *)
Definition answer_of (o : Outcome Disk (bytes * Disk * bool)) : option bytes :=
  match o with
  | Returned (m, _, _) => Some m
  | Stuck _ => None
  end.

(** ** The client (send_command in client.c) *)

Definition END_MARKER : bytes := str "[END]" ++ [LF].

(** The receive loop of [send_command]: the return value, what was printed,
    and the rest of the incoming side.  Each turn takes at least one event
    off [sock] or ends the loop. *)
Fixpoint recv_reply (fuel : nat) (sock : list RecvEv) (printed : bytes)
    : Z * bytes * list RecvEv :=
  match fuel with
  | O => (-1, printed, sock)
  | S k =>
      let '(n, recvbuf, sock') := recv_line sock BUFFER_SIZE in
      if n <=? 0 then
        (-1, printed ++ str "[Client] Connection closed or error." ++ [LF], sock')
      else if streq (c_str recvbuf) END_MARKER then (0, printed ++ [LF], sock')
      else recv_reply k sock' (printed ++ c_str recvbuf)
  end.

(** [send_command(sockfd, command)]: the bytes sent to the server, the
    return value, what the user sees and the rest of the incoming side. *)
Definition send_command (ok : bool) (sock : list RecvEv) (command : bytes)
    : bytes * Z * bytes * list RecvEv :=
  let sendbuf := snprintf BUFFER_SIZE (command ++ [LF]) in
  if send_all ok sendbuf <? 0 then (delivered ok sendbuf, -1, [], sock)
  else
    let '(r, printed, sock') := recv_reply (S (length sock)) sock [] in
    (delivered ok sendbuf, r, printed, sock').

(** ** The store as a sequence of records

    The records a scan of the trainer file meets: the consecutive full
    82-byte blocks; a shorter block at the end is not one of them. *)
Fixpoint blocks (fuel : nat) (width : nat) (data : bytes) : list bytes :=
  match fuel with
  | O => []
  | S k =>
      if (length data <? width)%nat || (width =? 0)%nat then []
      else firstn width data :: blocks k width (skipn width data)
  end.

Definition trainers_of (data : bytes) : list Trainer :=
  map decode_trainer (blocks (length data) sizeof_Trainer data).

Definition pokemons_of (data : bytes) : list Pokemon :=
  map decode_pokemon (blocks (length data) sizeof_Pokemon data).

(** The bytes of a sequence of trainer records. *)
Definition store_bytes (ts : list Trainer) : bytes := flat_map encode_trainer ts.


Definition key_in (k : Z) (ks : list Z) : bool := existsb (Z.eqb k) ks.




(** ** A small reference store for the worked examples *)

(** One 244-byte Pokemon record with the given key and texts, every other
    field zero. *)
Definition pokemon_record (i : Z) (name type1 type2 : bytes) : bytes :=
  encode_int i ++ fit NUL 50 name ++ fit NUL 20 type1 ++ fit NUL 20 type2
  ++ repeat NUL 150.

Definition demo_pokemon : bytes :=
  pokemon_record 1 (str "Bulbasaur") (str "Grass") (str "Poison")
  ++ pokemon_record 4 (str "Charmander") (str "Fire") []
  ++ pokemon_record 7 (str "Squirtle") (str "Water") [].

(** A trainer file of one record: key 1, [Ash], the references 1, 4, 7. *)
Definition demo_trainers : bytes :=
  encode_trainer (mkTrainer 1 (fit NUL NAME_LEN (str "Ash")) [1; 4; 7; 0; 0; 0] 3).


(** Surroundings for the examples: an execution followed a thousand calls
    deep, [errno] not [EINTR], a writable working directory. *)
Definition demo_env : Env := mkEnv 1000 false true true.

(** ** The log as a sequence of entries *)

(** What one call of [log_request] is given. *)
Record Entry : Type := mkEntry {
  e_clock : bytes;
  e_ip : bytes;
  e_port : Z;
  e_cmd : bytes
}.

Definition entry_body (e : Entry) : bytes :=
  log_body (e_clock e) (e_ip e) (e_port e) (e_cmd e).

Definition entry_line (e : Entry) : bytes :=
  log_line (e_clock e) (e_ip e) (e_port e) (e_cmd e).

(** The log after one [log_request] per entry, in order. *)
Definition log_all (log : option bytes) (es : list Entry) : option bytes :=
  fold_left (fun l e => log_request l (e_clock e) (e_ip e) (e_port e) (e_cmd e))
            es log.

(** Text of one line: no newline and no NUL in it. *)
Definition plain (s : bytes) : bool :=
  forallb (fun c => negb (byte_eqb c LF) && negb (byte_eqb c NUL)) s.

(** The last [n] elements of a list, in order; all of it when it is shorter. *)
Definition lastn {A : Type} (n : nat) (l : list A) : list A :=
  skipn (length l - n) l.

Definition demo_entry : Entry :=
  mkEntry (str "2025-12-08 22:19:40") (str "127.0.0.1") 51234 (str "get trainer").

(** The text of a log whose lines, without their newlines, are [bs]. *)
Definition lines_text (bs : list bytes) : bytes := flat_map (fun b => b ++ [LF]) bs.

(** ** What one turn of the worker works on *)

(** The command text of a turn: the received line without its newline. *)
Definition received_command (sock : list RecvEv) : bytes :=
  snprintf BUFFER_SIZE (trim_newline (c_str (snd (fst (recv_line sock BUFFER_SIZE))))).

(** The value [recv_line] returns in a turn. *)
Definition received_count (sock : list RecvEv) : Z :=
  fst (fst (recv_line sock BUFFER_SIZE)).

Definition phase_of (r : Phase * list RecvEv * Disk * bytes) : Phase :=
  fst (fst (fst r)).

Definition disk_of (r : Phase * list RecvEv * Disk * bytes) : Disk :=
  snd (fst r).

Definition sent_of (r : Phase * list RecvEv * Disk * bytes) : bytes := snd r.

(** The files of the worked examples: the reference store, a trainer
    store of one record, an empty log, no [trainers.tmp]. *)
Definition demo_disk : Disk :=
  mkDisk (Some demo_pokemon) (Some demo_trainers) (Some []) None.

(** A line as the bytes arriving on a connection, newline included. *)
Definition incoming (line : bytes) : list RecvEv := map Rx (line ++ [LF]).

Definition demo_peer : Peer := mkPeer (str "127.0.0.1") 51234.

Definition demo_clock : bytes := str "2025-12-08 22:19:40".

(** An entry whose clock text, address and command are plain text and
    whose line fits one [fgets] call. *)
Definition entry_ok (e : Entry) : bool :=
  plain (e_clock e) && plain (e_ip e) && plain (e_cmd e)
  && (length (entry_body e) <? 1023)%nat.

(** A token: at least one character and no space. *)
Definition is_token (w : bytes) : bool :=
  negb (length w =? 0)%nat && forallb (fun c => negb (byte_eqb c SP)) w.

(** ** Views of the incoming side of a connection *)

(** The incoming side without the interrupted calls. *)
Definition drop_eintr (sock : list RecvEv) : list RecvEv :=
  filter (fun e => match e with Eintr => false | _ => true end) sock.

(** No newline in a text. *)
Definition no_lf (s : bytes) : bool := forallb (fun c => negb (byte_eqb c LF)) s.

(** Neither carriage return nor newline in a text. *)
Definition no_crlf (s : bytes) : bool :=
  forallb (fun c => negb (byte_eqb c CR || byte_eqb c LF)) s.

(** A text that does not go on with a digit. *)
Definition ends_number (r : bytes) : Prop :=
  forall c r', r = c :: r' -> is_digit c = false.

(** No NUL in a text. *)
Definition no_nul (s : bytes) : bool := forallb (fun c => negb (byte_eqb c NUL)) s.

(** ** A reply as the client expects it *)

(** A line of a reply: plain text that fits the receive buffer with its
    newline and is not the end marker. *)
Definition reply_line_ok (l : bytes) : Prop :=
  plain l = true /\ (length l + 2 <= BUFFER_SIZE)%nat /\ l <> str "[END]".

(** ** The loop of [send_all] (common.c)

    What one [send(sockfd, buffer + total_sent, len - total_sent, 0)] call
    can give: a number of bytes taken, or a failure.  The outgoing side of
    a connection is the list of these in the order of the calls; the
    kernel never takes more than it is offered, so a larger number stands
    for all that is left, and a count of 0 is a failure to the loop
    ([n <= 0]).  When the list ends with bytes still to send, the call is
    still waiting and there is no return value. *)
Inductive SendEv : Type :=
  | Sent (n : nat)
  | SendFail.

(** The loop on what is left of the text: the return value and the bytes
    that reached the peer. *)
Fixpoint send_all_loop (sends : list SendEv) (rest : bytes) (total_sent : nat)
    (wire : bytes) {struct sends} : option (Z * bytes) :=
  match rest with
  | [] => Some (Z.of_nat total_sent, wire)
  | _ :: _ =>
      match sends with
      | [] => None
      | SendFail :: _ => Some (-1, wire)
      | Sent n :: sends' =>
          if (n =? 0)%nat then Some (-1, wire)
          else
            let k := Nat.min n (length rest) in
            send_all_loop sends' (skipn k rest) (total_sent + k) (wire ++ firstn k rest)
      end
  end.

(** [send_all(sockfd, buffer)] over the calls [sends]. *)
Definition send_all_calls (sends : list SendEv) (buffer : bytes) : option (Z * bytes) :=
  send_all_loop sends (c_str buffer) 0 [].

(** Every call takes at least one byte. *)
Definition all_sent (sends : list SendEv) : bool :=
  forallb (fun e => match e with Sent n => negb (n =? 0)%nat | SendFail => false end) sends.

(** ** The command line of the client (client.c) *)

(** The loop of [parse_client_arguments] over [argv[i .. argc-1]]: the two
    buffers and the two flags.  A flag counts only when an argument follows
    it ([i + 1 < argc]), and that argument is taken as its value whatever
    it says. *)
Fixpoint parse_client_loop (args : list bytes) (host port : bytes)
    (got_host got_port : bool) : bytes * bytes * bool * bool :=
  match args with
  | [] => (host, port, got_host, got_port)
  | a :: rest =>
      match rest with
      | v :: rest' =>
          if streq a (str "-h")
          then parse_client_loop rest' (strncpy host v 255) port true got_port
          else if streq a (str "-p")
          then parse_client_loop rest' host (strncpy port v 31) got_host true
          else parse_client_loop rest host port got_host got_port
      | [] => (host, port, got_host, got_port)
      end
  end.

(** [parse_client_arguments(argc, argv, host, port)]: the return value and
    the two buffers; [argv[0]] is not looked at. *)
Definition parse_client_arguments (argv : list bytes) (host port : bytes)
    : Z * bytes * bytes :=
  let '(h, p, got_host, got_port) := parse_client_loop (tl argv) host port false false in
  (if negb got_host || negb got_port then 1 else 0, h, p).

(** ** The read-eval-print loop of the client (client.c) *)

Definition HASH : byte := Byte.x23.

(** The loop of [start_repl]: [stdin] is what is left of the standard
    input, [sent] the bytes sent to the server and [printed] the standard
    output so far.  Every turn takes at least one byte off [stdin] or ends
    the loop. *)
Fixpoint start_repl_loop (fuel : nat) (ok : bool) (stdin : bytes)
    (sock : list RecvEv) (sent printed : bytes)
    : bytes * bytes * bytes * list RecvEv :=
  match fuel with
  | O => (sent, printed, stdin, sock)
  | S k =>
      let printed := printed ++ str "> " in
      match fgets BUFFER_SIZE stdin with
      | None =>
          (sent, printed ++ [LF] ++ str "[Client] End of input." ++ [LF], stdin, sock)
      | Some (buf, stdin') =>
          let command := trim_newline (c_str buf) in
          match command with
          | [] => start_repl_loop k ok stdin' sock sent printed
          | c :: _ =>
              if byte_eqb c HASH then start_repl_loop k ok stdin' sock sent printed
              else if streq command (str "exit") then
                (sent ++ delivered ok (str "exit" ++ [LF]),
                 printed ++ str "[Client] Exiting." ++ [LF], stdin', sock)
              else
                let '(s, r, out, sock') := send_command ok sock command in
                if r <? 0 then (sent ++ s, printed ++ out, stdin', sock')
                else start_repl_loop k ok stdin' sock' (sent ++ s) (printed ++ out)
          end
      end
  end.

(** [start_repl(sockfd)]: the bytes sent, the standard output, and what is
    left of the standard input and of the incoming side. *)
Definition start_repl (ok : bool) (stdin : bytes) (sock : list RecvEv)
    : bytes * bytes * bytes * list RecvEv :=
  start_repl_loop (S (length stdin)) ok stdin sock []
                  (str "[Client] Type 'exit' to quit." ++ [LF]).

(** A line of the input that the loop passes over: blank, or a comment. *)
Definition skipped_line (l : bytes) : Prop :=
  plain l = true /\ no_crlf l = true /\ (length l + 2 <= BUFFER_SIZE)%nat
  /\ (l = [] \/ exists r, l = HASH :: r).

(** The prompts printed for [n] lines. *)
Definition prompts (n : nat) : bytes := concat (repeat (str "> ") n).

(** ** The command line of the server (main in server.c) *)

(** The buffers and flags of the argument loop of [main]. *)
Record Args : Type := mkArgs {
  a_port : bytes;        (* char port[32] *)
  a_pokemon : bytes;     (* pokemon_path[256] *)
  a_trainer : bytes;     (* trainer_path[256] *)
  a_logname : bytes;     (* char logname[128] *)
  got_p : bool;
  got_m : bool;
  got_t : bool;
  got_l : bool
}.

(** The state before the loop: every buffer zeroed. *)
Definition no_args : Args :=
  mkArgs (repeat NUL 32) (repeat NUL 256) (repeat NUL 256) (repeat NUL 128)
         false false false false.

(** The argument loop of [main] over [argv[i .. argc-1]]. *)
Fixpoint main_args_loop (args : list bytes) (s : Args) : Args :=
  match args with
  | [] => s
  | a :: rest =>
      match rest with
      | v :: rest' =>
          if streq a (str "-p") then
            main_args_loop rest'
              (mkArgs (strncpy (a_port s) v 31) (a_pokemon s) (a_trainer s)
                      (a_logname s) true (got_m s) (got_t s) (got_l s))
          else if streq a (str "-m") then
            main_args_loop rest'
              (mkArgs (a_port s) (strncpy (a_pokemon s) v 255) (a_trainer s)
                      (a_logname s) (got_p s) true (got_t s) (got_l s))
          else if streq a (str "-t") then
            main_args_loop rest'
              (mkArgs (a_port s) (a_pokemon s) (strncpy (a_trainer s) v 255)
                      (a_logname s) (got_p s) (got_m s) true (got_l s))
          else if streq a (str "-l") then
            main_args_loop rest'
              (mkArgs (a_port s) (a_pokemon s) (a_trainer s)
                      (strncpy (a_logname s) v 127) (got_p s) (got_m s) (got_t s) true)
          else main_args_loop rest s
      | [] => s
      end
  end.

Definition SLASH : byte := Byte.x2f.

(** The names [main] goes on with, as C strings: the port, the two store
    paths and the log path. *)
Record Config : Type := mkConfig {
  cfg_port : bytes;
  cfg_pokemon : bytes;
  cfg_trainer : bytes;
  cfg_log : bytes
}.

(** [main] up to the opening of the files: [None] when it prints the usage
    and returns 1. *)
Definition main_config (argv : list bytes) : option Config :=
  let s := main_args_loop (tl argv) no_args in
  if negb (got_p s) || negb (got_m s) || negb (got_t s) || negb (got_l s) then None
  else
    let trainer := if streq (c_str (a_trainer s)) (str "trainer.bin")
                   then str "trainers.bin" else c_str (a_trainer s) in
    let logname := c_str (a_logname s) in
    let log := if existsb (byte_eqb SLASH) logname
               then snprintf 256 logname
               else snprintf 256 (str "data/" ++ logname) in
    Some (mkConfig (c_str (a_port s)) (c_str (a_pokemon s)) trainer log).

(** The number of flags seen. *)
Definition flags_seen (s : Args) : nat :=
  (if got_p s then 1 else 0) + (if got_m s then 1 else 0)
  + (if got_t s then 1 else 0) + (if got_l s then 1 else 0).
(** * Lemmas and theorems *)

(** ** Integers and slices *)

Lemma to_int_range z : int_range (to_int z).
Proof.
  unfold int_range, to_int, INT_MIN, INT_MAX.
  pose proof (Z.mod_pos_bound (z + 2 ^ 31) (2 ^ 32) ltac:(lia)). lia.
Qed.

Lemma to_int_id z : int_range z -> to_int z = z.
Proof.
  unfold int_range, to_int, INT_MIN, INT_MAX. intros H.
  rewrite Z.mod_small by lia. lia.
Qed.

Lemma to_int_mod z : to_int (z mod 2 ^ 32) = to_int z.
Proof.
  unfold to_int.
  rewrite Zplus_mod_idemp_l. reflexivity.
Qed.

Lemma decode_encode_int z : decode_int (encode_int z) = to_int z.
Proof.
  unfold decode_int, encode_int. rewrite le_combine_split.
  change (Z.of_nat 4 * 8) with 32. apply to_int_mod.
Qed.

Lemma decode_int_range b : int_range (decode_int b).
Proof. apply to_int_range. Qed.

Lemma length_encode_int z : length (encode_int z) = 4%nat.
Proof. apply length_le_split. Qed.

Lemma encode_decode_int b : length b = 4%nat -> encode_int (decode_int b) = b.
Proof.
  intros Hb. unfold encode_int, decode_int.
  rewrite le_split_mod.
  replace (to_int (le_combine b) mod 2 ^ (Z.of_nat 4 * 8)) with (le_combine b).
  - rewrite <- Hb. apply split_le_combine.
  - pose proof (le_combine_bound b) as Hbound. rewrite Hb in Hbound.
    change (8 * Z.of_nat 4) with 32 in Hbound. change (Z.of_nat 4 * 8) with 32.
    unfold to_int.
    rewrite Zminus_mod, Zmod_mod, <- Zminus_mod.
    replace (le_combine b + 2 ^ 31 - 2 ^ 31) with (le_combine b) by lia.
    symmetry. apply Z.mod_small. lia.
Qed.

Lemma sub_app_here (a b c : bytes) off len :
  length a = off -> length b = len -> sub off len (a ++ b ++ c) = b.
Proof.
  intros Ha Hb. unfold sub.
  rewrite skipn_app, Ha, Nat.sub_diag, skipn_all2 by lia. cbn [skipn app].
  rewrite firstn_app, Hb, Nat.sub_diag, firstn_all2 by lia.
  cbn [firstn]. apply app_nil_r.
Qed.

Lemma sub_app_front (b c : bytes) len :
  length b = len -> sub 0 len (b ++ c) = b.
Proof. intros Hb. now apply (sub_app_here [] b c). Qed.

Lemma sub_app_end (a b : bytes) off len :
  length a = off -> length b = len -> sub off len (a ++ b) = b.
Proof.
  intros Ha Hb. rewrite <- (app_nil_r b) at 1. now apply sub_app_here.
Qed.

Lemma sub_app_skip (a r : bytes) off len :
  (length a <= off)%nat -> sub off len (a ++ r) = sub (off - length a) len r.
Proof.
  intros Ha. unfold sub. rewrite skipn_app, skipn_all2 by lia. reflexivity.
Qed.

Lemma sub_short (a tl : bytes) len :
  (length tl < len)%nat -> sub (length a) len (a ++ tl) = tl.
Proof.
  intros H. unfold sub.
  rewrite skipn_app, Nat.sub_diag, skipn_all2 by lia. cbn [skipn app].
  apply firstn_all2. lia.
Qed.

Lemma length_sub off len (l : bytes) :
  (off + len <= length l)%nat -> length (sub off len l) = len.
Proof.
  intros H. unfold sub. rewrite length_firstn, length_skipn. lia.
Qed.

Lemma sub_split (l : bytes) off len k :
  (k <= len)%nat -> sub off len l = sub off k l ++ sub (off + k) (len - k) l.
Proof.
  intros H. unfold sub.
  rewrite <- (firstn_skipn k (firstn len (skipn off l))).
  rewrite firstn_firstn, Nat.min_l by lia. f_equal.
  rewrite skipn_firstn_comm, skipn_skipn. f_equal. f_equal. lia.
Qed.

Lemma fit_exact {A : Type} (d : A) n (l : list A) : length l = n -> fit d n l = l.
Proof.
  intros H. unfold fit. rewrite firstn_app, H, Nat.sub_diag, firstn_all2 by lia.
  cbn [firstn]. apply app_nil_r.
Qed.

Lemma length_fit {A : Type} (d : A) n (l : list A) : length (fit d n l) = n.
Proof.
  unfold fit. rewrite length_firstn, length_app, repeat_length. lia.
Qed.

Lemma sub_join (l : bytes) off a b :
  sub off a l ++ sub (off + a) b l = sub off (a + b) l.
Proof.
  rewrite (sub_split l off (a + b) a) by lia.
  repeat f_equal. lia.
Qed.

Lemma sub_all (l : bytes) : sub 0 (length l) l = l.
Proof. unfold sub. cbn [skipn]. apply firstn_all. Qed.

Lemma length_flat_map_int l : length (flat_map encode_int l) = (4 * length l)%nat.
Proof.
  induction l as [|a l IH]; cbn [flat_map length]; [reflexivity|].
  rewrite length_app, length_encode_int, IH. lia.
Qed.

Lemma length_encode_trainer t : length (encode_trainer t) = sizeof_Trainer.
Proof.
  unfold encode_trainer.
  rewrite !length_app, !length_encode_int, length_flat_map_int, !length_fit.
  reflexivity.
Qed.

Lemma sub_flat_map_int l : forall i r,
  (i < length l)%nat ->
  sub (4 * i) 4 (flat_map encode_int l ++ r) = encode_int (nth i l 0).
Proof.
  induction l as [|a l IH]; intros i r Hi; cbn [length] in Hi; [lia|].
  cbn [flat_map]. rewrite <- app_assoc.
  destruct i as [|j].
  - cbn [nth Nat.mul]. apply sub_app_front, length_encode_int.
  - rewrite sub_app_skip by (rewrite length_encode_int; lia).
    rewrite length_encode_int. cbn [nth].
    replace (4 * S j - 4)%nat with (4 * j)%nat by lia.
    apply IH. lia.
Qed.

Lemma decode_encode_trainer t : wf_trainer t -> decode_trainer (encode_trainer t) = t.
Proof.
  destruct t as [i nm ids c]. unfold wf_trainer. cbn [t_id t_name t_pokemon_ids t_count].
  intros (Hi & Hn & Hl & Hids & Hc).
  unfold decode_trainer, encode_trainer. cbn [t_id t_name t_pokemon_ids t_count].
  rewrite (fit_exact NUL NAME_LEN nm Hn), (fit_exact 0 6 ids Hl).
  f_equal.
  - rewrite sub_app_front by apply length_encode_int.
    rewrite decode_encode_int. now apply to_int_id.
  - apply sub_app_here; [apply length_encode_int | exact Hn].
  - assert (Hsub : forall k, (k < 6)%nat ->
        decode_int (sub (54 + 4 * k) 4
          (encode_int i ++ nm ++ flat_map encode_int ids ++ encode_int c))
        = nth k ids 0).
    { intros k Hk.
      rewrite sub_app_skip by (rewrite length_encode_int; lia).
      rewrite length_encode_int.
      rewrite sub_app_skip by (rewrite Hn; unfold NAME_LEN; lia).
      rewrite Hn. unfold NAME_LEN.
      replace (54 + 4 * k - 4 - 50)%nat with (4 * k)%nat by lia.
      rewrite sub_flat_map_int by lia.
      rewrite decode_encode_int. apply to_int_id.
      rewrite Forall_forall in Hids. apply Hids. apply nth_In. lia. }
    do 7 (destruct ids as [|? ids]; cbn [length] in Hl; try discriminate).
    cbn [seq map]. rewrite !Hsub by lia. reflexivity.
  - rewrite app_assoc, app_assoc.
    rewrite sub_app_end.
    + rewrite decode_encode_int. now apply to_int_id.
    + rewrite !length_app, length_encode_int, length_flat_map_int, Hn, Hl. reflexivity.
    + apply length_encode_int.
Qed.

Lemma wf_decode_trainer c : length c = sizeof_Trainer -> wf_trainer (decode_trainer c).
Proof.
  intros Hc. unfold wf_trainer, decode_trainer.
  cbn [t_id t_name t_pokemon_ids t_count].
  split; [apply decode_int_range|].
  split; [apply length_sub; rewrite Hc; unfold NAME_LEN, sizeof_Trainer; lia|].
  split; [rewrite length_map, length_seq; reflexivity|].
  split; [|apply decode_int_range].
  - rewrite Forall_forall. intros x Hx. apply in_map_iff in Hx.
    destruct Hx as (k & <- & _). apply decode_int_range.
Qed.

Lemma encode_decode_trainer c :
  length c = sizeof_Trainer -> encode_trainer (decode_trainer c) = c.
Proof.
  intros Hc. unfold sizeof_Trainer in Hc.
  unfold encode_trainer, decode_trainer. cbn [t_id t_name t_pokemon_ids t_count].
  rewrite fit_exact by (apply length_sub; unfold NAME_LEN; lia).
  rewrite fit_exact by (rewrite length_map, length_seq; reflexivity).
  cbn [seq map flat_map].
  rewrite !encode_decode_int by (apply length_sub; lia).
  rewrite app_nil_r. unfold NAME_LEN. cbn [Nat.mul Nat.add].
  rewrite <- !app_assoc.
  repeat (rewrite app_assoc, sub_join; cbn [Nat.add]).
  rewrite sub_join. cbn [Nat.add].
  rewrite <- Hc. apply sub_all.
Qed.

(** ** A file as a sequence of records *)

Lemma length_concat_blocks (w : nat) (cs : list bytes) :
  Forall (fun c => length c = w) cs -> length (concat cs) = (w * length cs)%nat.
Proof.
  induction 1 as [|c cs Hc _ IH]; cbn [concat length]; [lia|].
  rewrite length_app, IH, Hc. lia.
Qed.

Lemma blocks_concat (w : nat) (cs : list bytes) : forall tl fuel,
  (0 < w)%nat -> Forall (fun c => length c = w) cs -> (length tl < w)%nat ->
  (length cs <= fuel)%nat ->
  blocks fuel w (concat cs ++ tl) = cs.
Proof.
  induction cs as [|c cs IH]; intros tl fuel Hw Hcs Htl Hfuel.
  - cbn [concat app]. destruct fuel as [|k]; [reflexivity|].
    cbn [blocks]. apply Nat.ltb_lt in Htl. now rewrite Htl.
  - pose proof (Forall_inv Hcs) as Hc. cbn beta in Hc.
    pose proof (Forall_inv_tail Hcs) as Hcs'.
    destruct fuel as [|k]; cbn [length] in Hfuel; [lia|].
    cbn [blocks concat]. rewrite <- app_assoc.
    replace (length (c ++ concat cs ++ tl) <? w)%nat with false
      by (symmetry; apply Nat.ltb_ge; rewrite length_app; lia).
    replace (w =? 0)%nat with false
      by (symmetry; apply Nat.eqb_neq; lia).
    cbn [orb]. rewrite <- Hc.
    rewrite firstn_app, Nat.sub_diag, firstn_all2 by lia.
    rewrite skipn_app, Nat.sub_diag, skipn_all2 by lia.
    cbn [firstn skipn app]. rewrite app_nil_r, Hc. apply f_equal.
    apply IH; auto. lia.
Qed.

(** Every file is a run of full records followed by less than one record. *)
Lemma file_decomposition (w : nat) : (0 < w)%nat -> forall n (data : bytes),
  (length data <= n)%nat ->
  exists cs tl, data = concat cs ++ tl /\ Forall (fun c => length c = w) cs
                /\ (length tl < w)%nat.
Proof.
  intros Hw. induction n as [|n IH]; intros data Hn.
  - exists [], data. cbn [concat app]. repeat split; auto. lia.
  - destruct (Nat.ltb_spec (length data) w) as [Hlt|Hge].
    + exists [], data. cbn [concat app]. repeat split; auto.
    + destruct (IH (skipn w data)) as (cs & tl & Heq & Hcs & Htl).
      { rewrite length_skipn. lia. }
      exists (firstn w data :: cs), tl. repeat split; auto.
      * cbn [concat]. rewrite <- app_assoc, <- Heq. symmetry. apply firstn_skipn.
      * constructor; auto. rewrite length_firstn. lia.
Qed.

Lemma blocks_of_file (w : nat) (cs : list bytes) tl :
  (0 < w)%nat -> Forall (fun c => length c = w) cs -> (length tl < w)%nat ->
  blocks (length (concat cs ++ tl)) w (concat cs ++ tl) = cs.
Proof.
  intros Hw Hcs Htl. apply blocks_concat; auto.
  rewrite length_app, (length_concat_blocks w) by assumption. nia.
Qed.

Lemma store_bytes_cons t ts : store_bytes (t :: ts) = encode_trainer t ++ store_bytes ts.
Proof. reflexivity. Qed.

Lemma store_bytes_decode cs :
  Forall (fun c => length c = sizeof_Trainer) cs ->
  store_bytes (map decode_trainer cs) = concat cs.
Proof.
  induction 1 as [|c cs Hc _ IH]; [reflexivity|].
  cbn [map concat]. rewrite store_bytes_cons, IH, encode_decode_trainer; auto.
Qed.

(** Every trainer file is the bytes of its records and a rest shorter than
    one record. *)
Lemma trainers_view data :
  exists tl, data = store_bytes (trainers_of data) ++ tl
             /\ (length tl < sizeof_Trainer)%nat
             /\ Forall wf_trainer (trainers_of data).
Proof.
  destruct (file_decomposition sizeof_Trainer ltac:(unfold sizeof_Trainer; lia)
              _ data (le_n _)) as (cs & tl & Heq & Hcs & Htl).
  exists tl. unfold trainers_of. subst data.
  rewrite blocks_of_file by (auto; unfold sizeof_Trainer; lia).
  rewrite store_bytes_decode by assumption.
  repeat split; auto.
  rewrite Forall_forall. intros t Ht. apply in_map_iff in Ht.
  destruct Ht as (c & <- & Hin). apply wf_decode_trainer.
  rewrite Forall_forall in Hcs. now apply Hcs.
Qed.

(** ** C strings *)

Lemma c_str_prefix (a r : bytes) :
  forallb (fun c => negb (byte_eqb c NUL)) a = true ->
  (r = [] \/ exists r', r = NUL :: r') ->
  c_str (a ++ r) = a.
Proof.
  intros Ha Hr. induction a as [|c a IH]; cbn [app].
  - destruct Hr as [->|(r' & ->)]; reflexivity.
  - cbn [forallb] in Ha. apply andb_true_iff in Ha. destruct Ha as [Hc Ha].
    cbn [c_str]. apply negb_true_iff in Hc. rewrite Hc. f_equal. now apply IH.
Qed.

Lemma c_str_no_nul s : forallb (fun c => negb (byte_eqb c NUL)) (c_str s) = true.
Proof.
  induction s as [|c s IH]; cbn [c_str]; [reflexivity|].
  destruct (byte_eqb c NUL) eqn:E; [reflexivity|].
  cbn [forallb]. now rewrite E, IH.
Qed.

Lemma forallb_firstn {A : Type} (p : A -> bool) n (l : list A) :
  forallb p l = true -> forallb p (firstn n l) = true.
Proof.
  revert l. induction n as [|n IH]; intros [|x l] H; cbn [firstn forallb] in *; auto.
  apply andb_true_iff in H. destruct H as [Hx Hl]. now rewrite Hx, IH.
Qed.

Lemma firstn_repeat_le {A : Type} (x : A) n : forall k,
  (k <= n)%nat -> firstn k (repeat x n) = repeat x k.
Proof.
  induction n as [|n IH]; intros [|k] H; cbn [repeat firstn]; try reflexivity; try lia.
  f_equal. apply IH. lia.
Qed.

Lemma firstn_pad (s : bytes) n :
  firstn n (s ++ repeat NUL n) = firstn n s ++ repeat NUL (n - length s).
Proof.
  rewrite firstn_app. f_equal. apply firstn_repeat_le. lia.
Qed.

(** ** [safe_read] and [safe_write] do not come back *)

(** The first thing the function does for a positive size is to call
    itself with the same arguments; so however deep it is followed, a call
    for at least one byte has not returned. *)
Lemma safe_read_at_stuck depth : forall eintr fd size,
  (0 < size)%nat -> safe_read_at depth eintr fd size = Stuck fd.
Proof.
  induction depth as [|d IH]; intros eintr fd size Hsize; [reflexivity|].
  cbn [safe_read_at safe_read_loop].
  replace (0 <? size)%nat with true by (symmetry; apply Nat.ltb_lt; exact Hsize).
  rewrite Nat.sub_0_r, (IH eintr fd size Hsize). reflexivity.
Qed.

Lemma safe_read_stuck env fd size :
  (0 < size)%nat -> safe_read env fd size = Stuck fd.
Proof. apply safe_read_at_stuck. Qed.



(** A call for no byte at all returns 0, when there is room for the call. *)
Lemma safe_read_nothing env fd :
  (0 < budget env)%nat -> safe_read env fd 0 = Returned (0, [], fd).
Proof.
  unfold safe_read. destruct (budget env) as [|d]; [lia|]. reflexivity.
Qed.

(** ** The store accessors do not come back *)

Ltac read_stuck :=
  rewrite safe_read_stuck
    by (cbv [sizeof_Trainer sizeof_Pokemon]; lia).

Lemma get_pokemon_by_id_stuck env fd id :
  get_pokemon_by_id env fd id = Stuck (lseek_set fd 0).
Proof.
  unfold get_pokemon_by_id. destruct (budget env) as [|k]; [reflexivity|].
  cbn [get_pokemon_scan]. read_stuck. reflexivity.
Qed.

Lemma get_trainer_by_id_stuck env fd id :
  get_trainer_by_id env fd id = Stuck (lseek_set fd 0).
Proof.
  unfold get_trainer_by_id. destruct (budget env) as [|k]; [reflexivity|].
  cbn [get_trainer_scan]. read_stuck. reflexivity.
Qed.

Lemma max_id_scan_stuck turns env fd m : max_id_scan turns env fd m = Stuck fd.
Proof. destruct turns; cbn [max_id_scan]; [reflexivity|]. read_stuck. reflexivity. Qed.

Lemma update_scan_stuck turns env fd id ids count pos :
  update_scan turns env fd id ids count pos = Stuck fd.
Proof. destruct turns; cbn [update_scan]; [reflexivity|]. read_stuck. reflexivity. Qed.

Lemma delete_scan_stuck turns env src tmp id found :
  delete_scan turns env src tmp id found = Stuck tmp.
Proof. destruct turns; cbn [delete_scan]; [reflexivity|]. read_stuck. reflexivity. Qed.

Lemma list_scan_stuck turns env d fd out : list_scan turns env d fd out = Stuck d.
Proof. destruct turns; cbn [list_scan]; [reflexivity|]. read_stuck. reflexivity. Qed.

(** [validate_pokemon_ids] returns only when it has no id to look up or
    no file to look in. *)
Lemma validate_pokemon_ids_cases env pf ids count :
  validate_pokemon_ids env pf ids count
  = match pf with
    | None => Returned false
    | Some data =>
        match firstn (Z.to_nat count) ids with
        | [] => Returned true
        | _ :: _ => Stuck (Some (open_file data))
        end
    end.
Proof.
  unfold validate_pokemon_ids. destruct pf as [data|]; [|reflexivity].
  destruct (firstn (Z.to_nat count) ids) as [|i rest]; [reflexivity|].
  cbn [validate_loop]. rewrite get_pokemon_by_id_stuck. reflexivity.
Qed.

(** A request with at least one reference. *)
Lemma firstn_request (ids : list Z) count :
  1 <= count -> ids <> [] -> exists i rest, firstn (Z.to_nat count) ids = i :: rest.
Proof.
  intros Hc Hi. destruct ids as [|i ids]; [contradiction|].
  destruct (Z.to_nat count) as [|n] eqn:E; [lia|]. cbn [firstn]. eauto.
Qed.

Lemma add_trainer_stuck env pdata fd name ids count :
  1 <= count <= MAX_POKEMON -> ids <> [] ->
  add_trainer_with_validation env (Some pdata) fd name ids count = Stuck fd.
Proof.
  intros Hc Hi. unfold add_trainer_with_validation.
  replace (count <=? 0) with false by (symmetry; apply Z.leb_gt; lia).
  replace (count >? MAX_POKEMON) with false
    by (symmetry; rewrite Z.gtb_ltb; apply Z.ltb_ge; lia).
  cbn [orb]. rewrite validate_pokemon_ids_cases.
  destruct (firstn_request ids count (proj1 Hc) Hi) as (i & rest & ->). reflexivity.
Qed.

Lemma update_trainer_stuck env pdata fd id ids count :
  1 <= count <= MAX_POKEMON -> ids <> [] ->
  update_trainer_with_validation env (Some pdata) fd id ids count = Stuck fd.
Proof.
  intros Hc Hi. unfold update_trainer_with_validation.
  replace (count <=? 0) with false by (symmetry; apply Z.leb_gt; lia).
  replace (count >? MAX_POKEMON) with false
    by (symmetry; rewrite Z.gtb_ltb; apply Z.ltb_ge; lia).
  cbn [orb]. rewrite validate_pokemon_ids_cases.
  destruct (firstn_request ids count (proj1 Hc) Hi) as (i & rest & ->). reflexivity.
Qed.

(** What the two functions give in every case: the failure value, or
    nothing; the descriptor is the one they were given. *)
Lemma add_trainer_cases env pf fd name ids count :
  add_trainer_with_validation env pf fd name ids count = Returned (-1, fd)
  \/ exists fd', add_trainer_with_validation env pf fd name ids count = Stuck fd'
                 /\ option_map f_data fd' = option_map f_data fd.
Proof.
  unfold add_trainer_with_validation.
  destruct ((count <=? 0) || (count >? MAX_POKEMON)); [now left|].
  rewrite validate_pokemon_ids_cases.
  destruct pf as [data|]; [|now left].
  destruct (firstn (Z.to_nat count) ids).
  - rewrite max_id_scan_stuck. right. exists (lseek_set fd 0).
    split; [reflexivity|]. now destruct fd.
  - right. now exists fd.
Qed.

Lemma update_trainer_cases env pf fd id ids count :
  update_trainer_with_validation env pf fd id ids count = Returned (0, fd)
  \/ exists fd', update_trainer_with_validation env pf fd id ids count = Stuck fd'
                 /\ option_map f_data fd' = option_map f_data fd.
Proof.
  unfold update_trainer_with_validation.
  destruct ((count <=? 0) || (count >? MAX_POKEMON)); [now left|].
  rewrite validate_pokemon_ids_cases.
  destruct pf as [data|]; [|now left].
  destruct (firstn (Z.to_nat count) ids).
  - rewrite update_scan_stuck. right. exists (lseek_set fd 0).
    split; [reflexivity|]. now destruct fd.
  - right. now exists fd.
Qed.

Lemma delete_trainer_cases env d id :
  delete_trainer env d id
  = if tmp_creatable env then
      match trainer_path d with
      | Some _ => Stuck (set_tmp d (Some []))
      | None => Returned (0, set_tmp d (Some []))
      end
    else Returned (0, d).
Proof.
  unfold delete_trainer.
  destruct (tmp_creatable env), (trainer_path d) as [data|]; cbn [option_map];
    try reflexivity.
  rewrite delete_scan_stuck. reflexivity.
Qed.

Lemma get_trainer_cmd_cases env d args :
  get_trainer_cmd env d args
  = match trainer_path d with
    | None => Returned (str "Cannot open trainer DB.")
    | Some _ => Stuck d
    end.
Proof.
  unfold get_trainer_cmd. destruct (trainer_path d) as [data|]; [|reflexivity].
  rewrite get_trainer_by_id_stuck, list_scan_stuck.
  now destruct (length args =? 3)%nat.
Qed.

Lemma set_store_same d fd :
  option_map f_data fd = trainer_path d \/ fd = None -> set_store d fd = d.
Proof.
  destruct d as [p t l m]. unfold set_store, set_trainer.
  cbn [pokemon_path trainer_path log_path tmp_path].
  intros [H|H]; destruct fd as [f|]; cbn [option_map] in H; try reflexivity;
    try discriminate. now subst.
Qed.

Lemma set_store_opened d fd' :
  option_map f_data fd' = option_map f_data (option_map open_file (trainer_path d)) ->
  set_store d fd' = d.
Proof.
  intros H. apply set_store_same. left. rewrite H.
  now destruct (trainer_path d).
Qed.

(** ** The interpreter on the store commands *)

Lemma post_trainer_cmd_cases env d args :
  (exists m, post_trainer_cmd env d args = Returned (m, d))
  \/ post_trainer_cmd env d args = Stuck d.
Proof.
  unfold post_trainer_cmd.
  destruct (Z.of_nat (length args) - 3 >? MAX_POKEMON); [left; eauto|].
  destruct (add_trainer_cases env (pokemon_path d)
              (option_map open_file (trainer_path d)) (arg args 2)
              (map atoi (skipn 3 args)) (Z.of_nat (length args) - 3))
    as [-> | (fd' & -> & Hfd)].
  - change (-1 <? 0) with true. cbv iota.
    rewrite set_store_opened by reflexivity. left. eauto.
  - right. now rewrite set_store_opened.
Qed.

Lemma put_trainer_cmd_cases env d args :
  (exists m, put_trainer_cmd env d args = Returned (m, d))
  \/ put_trainer_cmd env d args = Stuck d.
Proof.
  unfold put_trainer_cmd.
  destruct (Z.of_nat (length args) - 3 >? MAX_POKEMON); [left; eauto|].
  destruct (update_trainer_cases env (pokemon_path d)
              (option_map open_file (trainer_path d)) (atoi (arg args 2))
              (map atoi (skipn 3 args)) (Z.of_nat (length args) - 3))
    as [-> | (fd' & -> & Hfd)].
  - change (0 =? 0) with true. cbv iota.
    rewrite set_store_opened by reflexivity. left. eauto.
  - right. now rewrite set_store_opened.
Qed.

Lemma delete_trainer_cmd_cases env d args :
  delete_trainer_cmd env d args
  = if tmp_creatable env then
      match trainer_path d with
      | Some _ => Stuck (set_tmp d (Some []))
      | None => Returned (str "Trainer " ++ fmt_d (atoi (arg args 2))
                          ++ str " not found.", set_tmp d (Some []))
      end
    else Returned (str "Trainer " ++ fmt_d (atoi (arg args 2)) ++ str " not found.", d).
Proof.
  unfold delete_trainer_cmd. rewrite delete_trainer_cases.
  destruct (tmp_creatable env), (trainer_path d); reflexivity.
Qed.

(** No command changes one of the three files the server was started
    with: a command that reaches the store does not get as far as a
    write, and [delete] leaves at most an empty [trainers.tmp]. *)
Lemma dispatch_files env d args :
  pokemon_path (files_after (dispatch env d args)) = pokemon_path d
  /\ trainer_path (files_after (dispatch env d args)) = trainer_path d
  /\ log_path (files_after (dispatch env d args)) = log_path d.
Proof.
  unfold dispatch.
  pose proof (get_trainer_cmd_cases env d args) as Hget.
  pose proof (post_trainer_cmd_cases env d args) as Hpost.
  pose proof (put_trainer_cmd_cases env d args) as Hput.
  pose proof (delete_trainer_cmd_cases env d args) as Hdel.
  assert (Hdel' : pokemon_path (files_after (answered (delete_trainer_cmd env d args)))
                  = pokemon_path d
                  /\ trainer_path (files_after (answered (delete_trainer_cmd env d args)))
                     = trainer_path d
                  /\ log_path (files_after (answered (delete_trainer_cmd env d args)))
                     = log_path d).
  { rewrite Hdel.
    destruct (tmp_creatable env), (trainer_path d) eqn:E;
      cbn [answered files_after set_tmp pokemon_path trainer_path log_path];
      rewrite ?E; auto. }
  repeat lazymatch goal with
         | |- context [files_after (if ?c then _ else _)] =>
             destruct c;
             [ first [ solve [cbn [files_after]; auto]
                     | solve [rewrite Hget; destruct (trainer_path d) eqn:E;
                              cbn [files_after]; rewrite ?E; auto]
                     | solve [destruct Hpost as [(m & ->) | ->];
                              cbn [answered files_after]; auto]
                     | solve [destruct Hput as [(m & ->) | ->];
                              cbn [answered files_after]; auto]
                     | exact Hdel' ] | ]
         end.
  cbn [files_after]. auto.
Qed.

(** A [post] or [put] with one to six references and a Pokemon file that
    opens does not come back. *)
Lemma dispatch_post_stuck env d pdata name refs :
  pokemon_path d = Some pdata -> (1 <= length refs <= 6)%nat ->
  dispatch env d (str "post" :: str "trainer" :: name :: refs) = Stuck d.
Proof.
  intros Hp Hn. unfold dispatch.
  change (arg (str "post" :: str "trainer" :: name :: refs) 0) with (str "post").
  change (arg (str "post" :: str "trainer" :: name :: refs) 1) with (str "trainer").
  cbn [length].
  replace (S (S (S (length refs))) =? 0)%nat with false by reflexivity.
  replace (S (S (S (length refs))) =? 3)%nat with false
    by (symmetry; apply Nat.eqb_neq; lia).
  replace (4 <=? S (S (S (length refs))))%nat with true
    by (symmetry; apply Nat.leb_le; lia).
  change (streq (str "post") (str "exit")) with false.
  change (streq (str "post") (str "get")) with false.
  change (streq (str "post") (str "post")) with true.
  change (streq (str "trainer") (str "trainer")) with true.
  cbn [andb]. cbv iota.
  unfold post_trainer_cmd. cbn [length skipn arg nth].
  replace (Z.of_nat (S (S (S (length refs)))) - 3 >? MAX_POKEMON) with false
    by (symmetry; rewrite Z.gtb_ltb; apply Z.ltb_ge; unfold MAX_POKEMON; lia).
  rewrite Hp, add_trainer_stuck;
    [ | unfold MAX_POKEMON; lia | destruct refs; [cbn [length] in Hn; lia | discriminate] ].
  cbn [answered]. now rewrite set_store_opened.
Qed.

Lemma dispatch_put_stuck env d pdata key refs :
  pokemon_path d = Some pdata -> (1 <= length refs <= 6)%nat ->
  dispatch env d (str "put" :: str "trainer" :: key :: refs) = Stuck d.
Proof.
  intros Hp Hn. unfold dispatch.
  change (arg (str "put" :: str "trainer" :: key :: refs) 0) with (str "put").
  change (arg (str "put" :: str "trainer" :: key :: refs) 1) with (str "trainer").
  cbn [length].
  replace (S (S (S (length refs))) =? 0)%nat with false by reflexivity.
  replace (S (S (S (length refs))) =? 3)%nat with false
    by (symmetry; apply Nat.eqb_neq; lia).
  replace (4 <=? S (S (S (length refs))))%nat with true
    by (symmetry; apply Nat.leb_le; lia).
  change (streq (str "put") (str "exit")) with false.
  change (streq (str "put") (str "get")) with false.
  change (streq (str "put") (str "post")) with false.
  change (streq (str "put") (str "put")) with true.
  change (streq (str "trainer") (str "trainer")) with true.
  cbn [andb]. cbv iota.
  unfold put_trainer_cmd. cbn [length skipn arg nth].
  replace (Z.of_nat (S (S (S (length refs)))) - 3 >? MAX_POKEMON) with false
    by (symmetry; rewrite Z.gtb_ltb; apply Z.ltb_ge; unfold MAX_POKEMON; lia).
  rewrite Hp, update_trainer_stuck;
    [ | unfold MAX_POKEMON; lia | destruct refs; [cbn [length] in Hn; lia | discriminate] ].
  cbn [answered]. now rewrite set_store_opened.
Qed.

(** [get trainer], with or without a key, on a trainer file that opens. *)
Lemma dispatch_get_trainer_stuck env d data rest :
  trainer_path d = Some data ->
  dispatch env d (str "get" :: str "trainer" :: rest) = Stuck d.
Proof.
  intros Ht. unfold dispatch.
  change (arg (str "get" :: str "trainer" :: rest) 0) with (str "get").
  change (arg (str "get" :: str "trainer" :: rest) 1) with (str "trainer").
  cbn [length].
  replace (S (S (length rest)) =? 0)%nat with false by reflexivity.
  replace (2 <=? S (S (length rest)))%nat with true by reflexivity.
  change (streq (str "get") (str "exit")) with false.
  change (streq (str "get") (str "get")) with true.
  change (streq (str "trainer") (str "log")) with false.
  change (streq (str "trainer") (str "trainer")) with true.
  rewrite andb_false_r. cbn [andb]. cbv iota.
  now rewrite get_trainer_cmd_cases, Ht.
Qed.

(** ** The audit log *)

Lemma log_all_text es : forall l,
  log_all (Some l) es = Some (l ++ lines_text (map entry_body es)).
Proof.
  induction es as [|e es IH]; intros l; cbn [log_all fold_left map lines_text flat_map].
  - now rewrite app_nil_r.
  - cbn [log_request]. fold (log_all (Some (l ++ log_line (e_clock e) (e_ip e) (e_port e)
                                             (e_cmd e))) es).
    rewrite IH. unfold log_line, entry_body, lines_text. now rewrite <- !app_assoc.
Qed.

Lemma lines_text_entries es :
  lines_text (map entry_body es) = concat (map entry_line es).
Proof.
  induction es as [|e es IH]; [reflexivity|].
  cbn [map lines_text flat_map concat]. fold (lines_text (map entry_body es)).
  now rewrite IH.
Qed.

Lemma plain_no_lf c s : plain (c :: s) = true -> byte_eqb c LF = false /\ plain s = true.
Proof.
  unfold plain. cbn [forallb]. intros H.
  apply andb_true_iff in H. destruct H as [Hc Hs].
  apply andb_true_iff in Hc. destruct Hc as [Hc _].
  apply negb_true_iff in Hc. auto.
Qed.

Lemma plain_c_str s : plain s = true -> c_str s = s.
Proof.
  intros H. rewrite <- (app_nil_r s) at 1. apply c_str_prefix; [|now left].
  unfold plain in H. rewrite forallb_forall in *. intros c Hc.
  specialize (H c Hc). apply andb_true_iff in H. tauto.
Qed.

Lemma fgets_take_line body : forall rest room,
  plain body = true -> (length body < room)%nat ->
  fgets_take room (body ++ LF :: rest) = (body ++ [LF], rest).
Proof.
  induction body as [|c body IH]; intros rest room Hp Hlen;
    (destruct room as [|r]; [cbn [length] in Hlen; lia|]); cbn [app fgets_take].
  - reflexivity.
  - destruct (plain_no_lf c body Hp) as [Hc Hb]. rewrite Hc.
    rewrite IH by (auto; cbn [length] in Hlen; lia). reflexivity.
Qed.

Lemma fgets_line body rest :
  plain body = true -> (length body < 1023)%nat ->
  fgets 1024 (body ++ LF :: rest) = Some (body ++ [LF], rest).
Proof.
  intros Hp Hlen. unfold fgets.
  change (1024 - 1)%nat with 1023%nat.
  rewrite fgets_take_line by assumption.
  now destruct body.
Qed.

Lemma lines_text_cons b bs : lines_text (b :: bs) = b ++ LF :: lines_text bs.
Proof. unfold lines_text. cbn [flat_map]. now rewrite <- app_assoc. Qed.

Lemma length_lines_text bs : (length bs <= length (lines_text bs))%nat.
Proof.
  induction bs as [|b bs IH]; [cbn; lia|].
  rewrite lines_text_cons, length_app. cbn [length]. lia.
Qed.

Lemma count_lines_text bs : forall fuel acc,
  Forall (fun b => plain b = true /\ (length b < 1023)%nat) bs ->
  (length bs <= fuel)%nat -> 0 <= acc -> acc + Z.of_nat (length bs) <= INT_MAX ->
  count_lines fuel (lines_text bs) acc = acc + Z.of_nat (length bs).
Proof.
  induction bs as [|b bs IH]; intros fuel acc Hok Hfuel Hacc Hmax.
  - destruct fuel; cbn [count_lines lines_text flat_map fgets length]; lia.
  - destruct fuel as [|k]; cbn [length] in *; [lia|].
    cbn [count_lines]. rewrite lines_text_cons.
    destruct (Forall_inv Hok) as [Hp Hl].
    rewrite fgets_line by assumption.
    rewrite to_int_id by (unfold int_range, INT_MIN, INT_MAX in *; lia).
    rewrite IH; try lia. exact (Forall_inv_tail Hok).
Qed.

Lemma skip_lines_text bs : forall fuel k,
  Forall (fun b => plain b = true /\ (length b < 1023)%nat) bs ->
  (k <= length bs)%nat -> (k <= fuel)%nat ->
  skip_lines fuel (lines_text bs) (Z.of_nat k) = lines_text (skipn k bs).
Proof.
  induction bs as [|b bs IH]; intros fuel k Hok Hk Hfuel.
  - cbn [length] in Hk. replace k with 0%nat by lia.
    destruct fuel; reflexivity.
  - destruct k as [|k]; [destruct fuel; reflexivity|].
    destruct fuel as [|f]; [lia|].
    cbn [skip_lines skipn].
    replace (Z.of_nat (S k) >? 0) with true by (symmetry; apply Z.gtb_lt; lia).
    rewrite lines_text_cons.
    destruct (Forall_inv Hok) as [Hp Hl].
    rewrite fgets_line by assumption.
    replace (Z.of_nat (S k) - 1) with (Z.of_nat k) by lia.
    apply IH; [exact (Forall_inv_tail Hok) | cbn [length] in Hk; lia | lia].
Qed.

Lemma cat_lines_text bs : forall fuel outsz out,
  Forall (fun b => plain b = true /\ (length b < 1023)%nat) bs ->
  (length bs <= fuel)%nat -> (length out <= outsz - 1)%nat ->
  cat_lines fuel (lines_text bs) outsz out
  = out ++ firstn (outsz - 1 - length out) (lines_text bs).
Proof.
  induction bs as [|b bs IH]; intros fuel outsz out Hok Hfuel Hroom.
  - destruct fuel; cbn [cat_lines lines_text flat_map fgets];
      now rewrite firstn_nil, app_nil_r.
  - destruct fuel as [|k]; cbn [length] in Hfuel; [lia|].
    cbn [cat_lines]. rewrite lines_text_cons.
    destruct (Forall_inv Hok) as [Hp Hl].
    rewrite fgets_line by assumption.
    unfold strncat.
    assert (Hc : c_str (b ++ [LF]) = b ++ [LF]).
    { rewrite <- (app_nil_r (b ++ [LF])) at 1. apply c_str_prefix; [|now left].
      rewrite forallb_app. apply andb_true_iff. split; [|reflexivity].
      unfold plain in Hp. rewrite forallb_forall in *. intros c Hin.
      specialize (Hp c Hin). apply andb_true_iff in Hp. tauto. }
    rewrite Hc.
    rewrite IH; [|exact (Forall_inv_tail Hok) | lia
                 |rewrite length_app, length_firstn; lia].
    replace (b ++ LF :: lines_text bs) with ((b ++ [LF]) ++ lines_text bs)
      by (now rewrite <- app_assoc).
    rewrite (firstn_app (outsz - 1 - length out)), <- app_assoc.
    f_equal. f_equal; [f_equal; lia|].
    f_equal. rewrite length_app, length_firstn. lia.
Qed.

Lemma length_lastn {A : Type} n (l : list A) : length (lastn n l) = Nat.min (length l) n.
Proof. unfold lastn. rewrite length_skipn. lia. Qed.

Lemma lastn_map {A B : Type} (f : A -> B) n (l : list A) :
  lastn n (map f l) = map f (lastn n l).
Proof. unfold lastn. now rewrite length_map, skipn_map. Qed.

Lemma read_last_n_lines_text bs n :
  0 < n <= INT_MAX -> (1 <= length bs)%nat -> Z.of_nat (length bs) <= INT_MAX ->
  Forall (fun b => plain b = true /\ (length b < 1023)%nat) bs ->
  read_last_n_lines (Some (lines_text bs)) 4096 n
  = (1, firstn 4095 (lines_text (lastn (Z.to_nat n) bs))).
Proof.
  intros Hn Hk Hmax Hok. unfold read_last_n_lines.
  pose proof (length_lines_text bs) as Hlen.
  rewrite count_lines_text by (auto; lia). cbn [Z.add].
  replace (Z.of_nat (length bs) =? 0) with false by (symmetry; apply Z.eqb_neq; lia).
  assert (Hskip : (if Z.of_nat (length bs) >? n
                   then to_int (Z.of_nat (length bs) - n) else 0)
                  = Z.of_nat (length bs - Z.to_nat n)).
  { destruct (Z.gtb_spec (Z.of_nat (length bs)) n) as [Hgt|Hle].
    - rewrite to_int_id by (unfold int_range, INT_MIN, INT_MAX in *; lia). lia.
    - lia. }
  rewrite Hskip.
  rewrite skip_lines_text by (auto; lia).
  fold (lastn (Z.to_nat n) bs).
  rewrite cat_lines_text.
  - reflexivity.
  - unfold lastn. apply Forall_forall. intros b Hb.
    rewrite Forall_forall in Hok. apply Hok.
    rewrite <- (firstn_skipn (length bs - Z.to_nat n) bs). apply in_or_app. now right.
  - rewrite length_lastn. lia.
  - cbn [length]. lia.
Qed.

(** The text of a decimal number is digits and a sign. *)
Lemma plain_uint u : plain (str (NilEmpty.string_of_uint u)) = true.
Proof. induction u; cbn; auto. Qed.

Lemma plain_uint0 u : plain (str (NilZero.string_of_uint u)) = true.
Proof.
  destruct u; try reflexivity;
    match goal with
    | |- plain (str (NilZero.string_of_uint ?x)) = true => exact (plain_uint x)
    end.
Qed.

Lemma plain_fmt_d z : plain (fmt_d z) = true.
Proof.
  unfold fmt_d, NilZero.string_of_int. destruct (Z.to_int z) as [u|u].
  - apply plain_uint0.
  - change (plain (Byte.x2d :: str (NilZero.string_of_uint u)) = true).
    unfold plain. cbn [forallb]. apply andb_true_iff.
    split; [reflexivity | apply plain_uint0].
Qed.

Lemma plain_app a b : plain (a ++ b) = plain a && plain b.
Proof. apply forallb_app. Qed.

Lemma entry_ok_body e :
  entry_ok e = true ->
  plain (entry_body e) = true /\ (length (entry_body e) < 1023)%nat.
Proof.
  unfold entry_ok. intros H.
  apply andb_true_iff in H. destruct H as [H Hlen].
  apply andb_true_iff in H. destruct H as [H Hcmd].
  apply andb_true_iff in H. destruct H as [Hclock Hip].
  split; [|now apply Nat.ltb_lt].
  unfold entry_body, log_body.
  rewrite !plain_app, Hclock, Hip, Hcmd, plain_fmt_d. reflexivity.
Qed.

(** The command text the worker logs is plain text, whatever was received. *)
Lemma plain_trim_newline s : plain (trim_newline (c_str s)) = true.
Proof.
  induction s as [|c s IH]; cbn [c_str]; [reflexivity|].
  destruct (byte_eqb c NUL) eqn:En; [reflexivity|].
  cbn [trim_newline].
  destruct (byte_eqb c CR) eqn:Ec; [reflexivity|].
  destruct (byte_eqb c LF) eqn:El; [reflexivity|].
  cbn [orb]. unfold plain. cbn [forallb]. rewrite El, En. exact IH.
Qed.

(** C6 (amended).  After one or more appends to an empty log, each of
    plain text and of at most 1023 bytes with its newline, and with [n]
    positive, [read_last_n_lines] returns the text of the last min(k, n)
    entries in the order they were appended, cut to the 4095 bytes its
    caller's buffer holds: all of these entries when they are at most 4095
    bytes together.  The [get log <n>] command answers with that text. *)
Theorem get_log_returns_last_entries :
  forall (es : list Entry) (n : Z),
    0 < n <= INT_MAX ->
    (1 <= length es)%nat ->
    Z.of_nat (length es) <= INT_MAX ->
    Forall (fun e => entry_ok e = true) es ->
    let recent := lastn (Z.to_nat n) es in
    exists log,
      log_all (Some []) es = Some log
      /\ length recent = Nat.min (length es) (Z.to_nat n)
      /\ read_last_n_lines (Some log) 4096 n
         = (1, firstn 4095 (concat (map entry_line recent)))
      /\ ((length (concat (map entry_line recent)) <= 4095)%nat ->
          read_last_n_lines (Some log) 4096 n = (1, concat (map entry_line recent)))
      /\ forall env d tok,
           log_path d = Some log -> atoi tok = n ->
           dispatch env d [str "get"; str "log"; tok]
           = Returned (firstn 4095 (concat (map entry_line recent)), d, false).
Proof.
  intros es n Hn Hk Hmax Hok recent.
  exists (lines_text (map entry_body es)).
  assert (Hread : read_last_n_lines (Some (lines_text (map entry_body es))) 4096 n
                  = (1, firstn 4095 (concat (map entry_line recent)))).
  { unfold recent. rewrite <- lines_text_entries, <- lastn_map.
    apply read_last_n_lines_text; try (rewrite length_map; assumption); try assumption.
    apply Forall_map. apply Forall_forall. intros e He.
    rewrite Forall_forall in Hok. now apply entry_ok_body, Hok. }
  split; [apply (log_all_text es [])|].
  split; [apply length_lastn|].
  split; [exact Hread|].
  split; [intros Hfit; rewrite Hread; now rewrite firstn_all2|].
  intros env d tok Hlog Htok.
  change (dispatch env d [str "get"; str "log"; tok])
    with (@Returned Disk _
            (snprintf BUFFER_SIZE (get_log_cmd d [str "get"; str "log"; tok]), d, false)).
  unfold get_log_cmd.
  change (arg [str "get"; str "log"; tok] 2) with tok. rewrite Htok, Hlog.
  replace (n <=? 0) with false by (symmetry; apply Z.leb_gt; lia).
  rewrite Hread. cbn [Z.eqb]. unfold snprintf.
  rewrite firstn_firstn.
  replace (Nat.min (BUFFER_SIZE - 1) 4095) with 4095%nat by (vm_compute; reflexivity).
  reflexivity.
Qed.

Lemma get_log_witness :
  let es := [demo_entry; demo_entry; demo_entry] in
  0 < 2 <= INT_MAX
  /\ (1 <= length es)%nat
  /\ Z.of_nat (length es) <= INT_MAX
  /\ Forall (fun e => entry_ok e = true) es
  /\ exists log,
       log_all (Some []) es = Some log
       /\ read_last_n_lines (Some log) 4096 2
          = (1, entry_line demo_entry ++ entry_line demo_entry).
Proof.
  cbv zeta.
  assert (H1 : 0 < 2 <= INT_MAX) by (split; [reflexivity | discriminate]).
  assert (H2 : (1 <= length [demo_entry; demo_entry; demo_entry])%nat)
    by (apply Nat.leb_le; reflexivity).
  assert (H3 : Z.of_nat (length [demo_entry; demo_entry; demo_entry]) <= INT_MAX)
    by discriminate.
  assert (H4 : Forall (fun e => entry_ok e = true) [demo_entry; demo_entry; demo_entry])
    by (repeat (constructor; [reflexivity|]); constructor).
  do 4 (split; [assumption|]).
  destruct (get_log_returns_last_entries _ 2 H1 H2 H3 H4) as (log & Ha & _ & Hb & _).
  exists log. split; [exact Ha|]. rewrite Hb. reflexivity.
Defined.

(** C6, as stated, fails once the entries asked for exceed the 4096-byte
    output buffer: after 70 appends of a 73-byte line, [get log 70] gives
    4095 bytes, which is 56 entries and a piece of the 57th, not the 70
    entries of 5110 bytes. *)
Lemma get_log_cut_at_buffer :
  let es := repeat demo_entry 70 in
  exists log out,
    log_all (Some []) es = Some log
    /\ read_last_n_lines (Some log) 4096 70 = (1, out)
    /\ length out = 4095%nat
    /\ length (concat (map entry_line (lastn 70 es))) = (70 * 73)%nat
    /\ out <> concat (map entry_line (lastn 70 es)).
Proof.
  cbv zeta. eexists. eexists.
  split; [vm_compute; reflexivity|].
  split; [vm_compute; reflexivity|].
  split; [vm_compute; reflexivity|].
  split; [vm_compute; reflexivity|].
  intros H. apply (f_equal (@length byte)) in H. vm_compute in H. discriminate.
Qed.

(** ** The command interpreter *)

Lemma bytes_eqb_eq a : forall b, bytes_eqb a b = true <-> a = b.
Proof.
  induction a as [|x a IH]; intros [|y b]; cbn [bytes_eqb]; try (split; congruence).
  rewrite andb_true_iff, IH. unfold byte_eqb. split.
  - intros [Hx ->]. apply Byte.byte_dec_bl in Hx. now subst.
  - intros H. inversion H; subst. split; [now apply Byte.byte_dec_lb | reflexivity].
Qed.

Lemma streq_eq a b : streq a b = true <-> a = b.
Proof. apply bytes_eqb_eq. Qed.

Lemma tokens_space s : tokens (SP :: s) = tokens s.
Proof. reflexivity. Qed.

Lemma is_token_cons c w :
  is_token (c :: w) = true ->
  byte_eqb c SP = false /\ (w = [] \/ is_token w = true).
Proof.
  unfold is_token. cbn [length Nat.eqb negb andb forallb]. intros H.
  apply andb_true_iff in H. destruct H as [Hc Hw].
  apply negb_true_iff in Hc. split; [exact Hc|].
  destruct w as [|c' w]; [now left|right].
  cbn [length Nat.eqb negb andb]. exact Hw.
Qed.

Lemma tokens_word w : forall s,
  is_token w = true -> tokens (w ++ SP :: s) = w :: tokens s.
Proof.
  induction w as [|c w IH]; intros s Hw; [discriminate|].
  destruct (is_token_cons c w Hw) as [Hc [->|Hw']].
  - cbn [app tokens]. rewrite Hc. reflexivity.
  - destruct w as [|c' w]; [discriminate|].
    destruct (is_token_cons c' w Hw') as [Hc' _].
    specialize (IH s Hw').
    change (tokens ((c :: c' :: w) ++ SP :: s))
      with (if byte_eqb c SP then tokens ((c' :: w) ++ SP :: s)
            else if byte_eqb c' SP then [c] :: tokens ((c' :: w) ++ SP :: s)
                 else match tokens ((c' :: w) ++ SP :: s) with
                      | t :: ts => (c :: t) :: ts
                      | [] => [[c]]
                      end).
    now rewrite Hc, Hc', IH.
Qed.

Lemma tokens_last w : is_token w = true -> tokens w = [w].
Proof.
  induction w as [|c w IH]; intros Hw; [discriminate|].
  destruct (is_token_cons c w Hw) as [Hc [->|Hw']].
  - cbn [tokens]. now rewrite Hc.
  - destruct w as [|c' w]; [discriminate|].
    destruct (is_token_cons c' w Hw') as [Hc' _].
    specialize (IH Hw').
    change (tokens (c :: c' :: w))
      with (if byte_eqb c SP then tokens (c' :: w)
            else if byte_eqb c' SP then [c] :: tokens (c' :: w)
                 else match tokens (c' :: w) with
                      | t :: ts => (c :: t) :: ts
                      | [] => [[c]]
                      end).
    now rewrite Hc, Hc', IH.
Qed.

(** ** The channel *)

Lemma recv_line_loop_line line : forall rest maxlen buffer,
  no_lf line = true ->
  (length buffer + length line + 1 < maxlen)%nat ->
  recv_line_loop (map Rx (line ++ [LF]) ++ rest) maxlen buffer
  = (Z.of_nat (length buffer + length line + 1), buffer ++ line ++ [LF], rest).
Proof.
  induction line as [|c line IH]; intros rest maxlen buffer Hlf Hlen;
    cbn [app map recv_line_loop].
  - change (byte_eqb LF LF) with true. cbn iota.
    rewrite length_app. cbn [length app]. do 2 f_equal. apply f_equal. lia.
  - cbn [no_lf forallb] in Hlf. apply andb_true_iff in Hlf. destruct Hlf as [Hc Hl].
    apply negb_true_iff in Hc. rewrite Hc.
    cbn [length] in Hlen.
    replace (length (buffer ++ [c]) =? maxlen - 1)%nat with false
      by (symmetry; apply Nat.eqb_neq; rewrite length_app; cbn [length]; lia).
    rewrite IH; [|exact Hl | rewrite length_app; cbn [length]; lia].
    rewrite length_app, <- app_assoc. cbn [length app]. do 2 f_equal.
    apply f_equal. lia.
Qed.

Lemma recv_line_loop_full chunk : forall more maxlen buffer,
  no_lf chunk = true -> chunk <> [] ->
  (length buffer + length chunk = maxlen - 1)%nat ->
  recv_line_loop (map Rx chunk ++ more) maxlen buffer
  = (Z.of_nat (maxlen - 1), buffer ++ chunk, more).
Proof.
  induction chunk as [|c chunk IH]; intros more maxlen buffer Hlf Hne Hlen;
    [contradiction|].
  cbn [app map recv_line_loop].
  cbn [no_lf forallb] in Hlf. apply andb_true_iff in Hlf. destruct Hlf as [Hc Hl].
  apply negb_true_iff in Hc. rewrite Hc. cbn [length] in Hlen.
  destruct chunk as [|c' chunk].
  - replace (length (buffer ++ [c]) =? maxlen - 1)%nat with true
      by (symmetry; apply Nat.eqb_eq; rewrite length_app; cbn [length] in *; lia).
    rewrite length_app. cbn [length map app] in *. do 2 f_equal.
    apply f_equal. lia.
  - replace (length (buffer ++ [c]) =? maxlen - 1)%nat with false
      by (symmetry; apply Nat.eqb_neq; rewrite length_app; cbn [length] in *; lia).
    rewrite IH; [|exact Hl | discriminate | rewrite length_app; cbn [length] in *; lia].
    now rewrite <- app_assoc.
Qed.

(** X8.  [recv_line] frames the input by lines: a line that fits the buffer
    with its newline is returned whole, newline included, with its length,
    and what follows it on the connection is left for the next call; when
    the first [maxlen - 1] bytes hold no newline they are returned as they
    are and the rest of the long line is left for the next call. *)
Theorem recv_line_frames_lines :
  forall line rest maxlen,
    no_lf line = true ->
    ((length line + 2 <= maxlen)%nat ->
     recv_line (map Rx (line ++ [LF]) ++ rest) maxlen
     = (Z.of_nat (length line + 1), line ++ [LF], rest))
    /\ ((2 <= maxlen)%nat -> length line = (maxlen - 1)%nat ->
        recv_line (map Rx line ++ rest) maxlen = (Z.of_nat (maxlen - 1), line, rest)).
Proof.
  intros line rest maxlen Hlf. unfold recv_line. split.
  - intros Hlen.
    replace (0 <? maxlen - 1)%nat with true by (symmetry; apply Nat.ltb_lt; lia).
    rewrite recv_line_loop_line by (auto; cbn [length]; lia). reflexivity.
  - intros Hmax Hlen.
    replace (0 <? maxlen - 1)%nat with true by (symmetry; apply Nat.ltb_lt; lia).
    rewrite recv_line_loop_full; [reflexivity | exact Hlf | | cbn [length]; lia].
    intros ->. cbn [length] in Hlen. lia.
Qed.

Lemma recv_line_frames_witness :
  no_lf (str "get trainer 1") = true
  /\ (length (str "get trainer 1") + 2 <= BUFFER_SIZE)%nat
  /\ recv_line (map Rx (str "get trainer 1" ++ [LF]) ++ incoming (str "exit")) BUFFER_SIZE
     = (14, str "get trainer 1" ++ [LF], incoming (str "exit")).
Proof.
  assert (H1 : no_lf (str "get trainer 1") = true) by reflexivity.
  assert (H2 : (length (str "get trainer 1") + 2 <= BUFFER_SIZE)%nat)
    by (apply Nat.leb_le; vm_compute; reflexivity).
  split; [exact H1|]. split; [exact H2|].
  exact (proj1 (recv_line_frames_lines (str "get trainer 1") (incoming (str "exit"))
                  BUFFER_SIZE H1) H2).
Defined.

Lemma recv_line_loop_eintr sock : forall maxlen buffer,
  recv_line_loop (drop_eintr sock) maxlen buffer
  = (fst (fst (recv_line_loop sock maxlen buffer)),
     snd (fst (recv_line_loop sock maxlen buffer)),
     drop_eintr (snd (recv_line_loop sock maxlen buffer))).
Proof.
  induction sock as [|e sock IH]; intros maxlen buffer; [reflexivity|].
  destruct e as [c| |]; cbn [drop_eintr filter recv_line_loop];
    fold (drop_eintr sock).
  - destruct (byte_eqb c LF); [reflexivity|].
    destruct (length (buffer ++ [c]) =? maxlen - 1)%nat; [reflexivity|]. apply IH.
  - apply IH.
  - reflexivity.
Qed.

(** X9.  Interrupted [recv] calls are retried and leave no trace: with or
    without them in the input [recv_line] returns the same value and the
    same buffer, and leaves the same bytes and errors for later calls. *)
Theorem recv_line_retries_interrupted_calls :
  forall sock maxlen,
    recv_line (drop_eintr sock) maxlen
    = (fst (fst (recv_line sock maxlen)), snd (fst (recv_line sock maxlen)),
       drop_eintr (snd (recv_line sock maxlen))).
Proof.
  intros sock maxlen. unfold recv_line.
  destruct (0 <? maxlen - 1)%nat; [apply recv_line_loop_eintr | reflexivity].
Qed.

Lemma trim_newline_app body rest :
  no_crlf body = true -> trim_newline (body ++ rest) = body ++ trim_newline rest.
Proof.
  induction body as [|c body IH]; intros H; [reflexivity|].
  cbn [no_crlf forallb] in H. apply andb_true_iff in H. destruct H as [Hc Hb].
  apply negb_true_iff in Hc. cbn [app trim_newline]. rewrite Hc.
  now rewrite (IH Hb).
Qed.

(** X10.  [trim_newline] ends the string at its first carriage return or
    newline, wherever it stands: a text without either is kept as it is,
    and of a text with one only what stands before the first is kept, so
    [LF] and [CR LF] line ends are both removed and anything after them is
    dropped with them. *)
Theorem trim_newline_cuts_at_first_break :
  forall body rest,
    no_crlf body = true ->
    trim_newline body = body
    /\ trim_newline (body ++ LF :: rest) = body
    /\ trim_newline (body ++ CR :: rest) = body
    /\ trim_newline (body ++ [CR; LF]) = body.
Proof.
  intros body rest H.
  pose proof (trim_newline_app body [] H) as H0.
  pose proof (trim_newline_app body (LF :: rest) H) as H1.
  pose proof (trim_newline_app body (CR :: rest) H) as H2.
  pose proof (trim_newline_app body [CR; LF] H) as H3.
  cbn [trim_newline] in H0, H1, H2, H3.
  change (byte_eqb LF CR) with false in H1. change (byte_eqb LF LF) with true in H1.
  change (byte_eqb CR CR) with true in H2, H3.
  cbn [orb] in H1, H2, H3.
  rewrite app_nil_r in H0, H1, H2, H3. auto.
Qed.

Lemma trim_newline_witness :
  no_crlf (str "get trainer 1") = true
  /\ trim_newline (str "get trainer 1" ++ [CR; LF]) = str "get trainer 1".
Proof.
  split; [reflexivity|].
  exact (proj2 (proj2 (proj2
    (trim_newline_cuts_at_first_break (str "get trainer 1") [] eq_refl)))).
Defined.

(** ** Tokens *)

Lemma tokens_cons2 c d s :
  tokens (c :: d :: s)
  = if byte_eqb c SP then tokens (d :: s)
    else if byte_eqb d SP then [c] :: tokens (d :: s)
         else match tokens (d :: s) with
              | t :: ts => (c :: t) :: ts
              | [] => [[c]]
              end.
Proof. reflexivity. Qed.

Lemma tokens_head s : forall d,
  byte_eqb d SP = false -> exists t ts, tokens (d :: s) = (d :: t) :: ts.
Proof.
  induction s as [|e s IH]; intros d Hd.
  - cbn [tokens]. rewrite Hd. now exists [], [].
  - rewrite tokens_cons2, Hd.
    destruct (byte_eqb e SP) eqn:He.
    + now exists [], (tokens (e :: s)).
    + destruct (IH e He) as (t & ts & ->). now exists (e :: t), ts.
Qed.

Lemma tokens_app_space a : forall b, tokens (a ++ SP :: b) = tokens a ++ tokens b.
Proof.
  induction a as [|c a IH]; intros b; [reflexivity|].
  destruct a as [|d a].
  - cbn [app]. rewrite tokens_cons2. change (byte_eqb SP SP) with true.
    cbn [tokens]. destruct (byte_eqb c SP); reflexivity.
  - specialize (IH b). cbn [app] in IH |- *. rewrite !tokens_cons2.
    destruct (byte_eqb c SP); [exact IH|].
    destruct (byte_eqb d SP) eqn:Hd.
    + now rewrite IH.
    + rewrite IH. destruct (tokens_head a d Hd) as (t & ts & ->). reflexivity.
Qed.

Lemma tokens_are_tokens s : Forall (fun w => is_token w = true) (tokens s).
Proof.
  induction s as [|c s IH]; [constructor|].
  destruct s as [|d s].
  - cbn [tokens]. destruct (byte_eqb c SP) eqn:Hc; constructor; [|constructor].
    unfold is_token. cbn. now rewrite Hc.
  - rewrite tokens_cons2.
    destruct (byte_eqb c SP) eqn:Hc; [exact IH|].
    destruct (byte_eqb d SP) eqn:Hd.
    + constructor; [|exact IH]. unfold is_token. cbn. now rewrite Hc.
    + destruct (tokens_head s d Hd) as (t & ts & Heq). rewrite Heq in IH |- *.
      constructor; [|exact (Forall_inv_tail IH)].
      pose proof (Forall_inv IH) as Ht. unfold is_token in Ht |- *.
      cbn [length Nat.eqb negb andb forallb] in Ht |- *. now rewrite Hc.
Qed.

Lemma tokens_concat s :
  concat (tokens s) = filter (fun c => negb (byte_eqb c SP)) s.
Proof.
  induction s as [|c s IH]; [reflexivity|].
  destruct s as [|d s].
  - cbn [tokens filter]. destruct (byte_eqb c SP); reflexivity.
  - rewrite tokens_cons2.
    cbn [filter] in IH |- *.
    destruct (byte_eqb c SP) eqn:Hc; cbn [negb]; [exact IH|].
    destruct (byte_eqb d SP) eqn:Hd; cbn [negb] in IH |- *.
    + cbn [concat app]. now rewrite IH.
    + destruct (tokens_head s d Hd) as (t & ts & Heq). rewrite Heq in IH |- *.
      cbn [concat app] in IH |- *. now rewrite IH.
Qed.

(** X11.  The tokens of a line are the maximal runs of characters other
    than the space.  A run of such characters is one token, whole: alone
    it is the only token of the line, and followed by a space it is the
    first token, the others being those of what follows the space.  A
    space ends a token and starts no empty one: an empty line has no
    token, a leading space is skipped, and the tokens of [a], a space and
    [b] are those of [a] followed by those of [b].  Every token is
    non-empty and holds no space; put together the tokens are the line
    without its spaces (a tab does not separate); and [tokenize] keeps at
    most 20 of them. *)
Theorem tokens_are_runs_between_spaces :
  forall a b w,
    tokens (a ++ SP :: b) = tokens a ++ tokens b
    /\ Forall (fun w => is_token w = true) (tokens a)
    /\ concat (tokens a) = filter (fun c => negb (byte_eqb c SP)) a
    /\ (length (tokenize a) <= 20)%nat
    /\ ((length (tokens a) <= 20)%nat -> tokenize a = tokens a)
    /\ tokens [] = []
    /\ tokens (SP :: a) = tokens a
    /\ (is_token w = true -> tokens w = [w])
    /\ (is_token w = true -> tokens (w ++ SP :: b) = w :: tokens b).
Proof.
  intros a b w. split; [apply tokens_app_space|].
  split; [apply tokens_are_tokens|]. split; [apply tokens_concat|].
  unfold tokenize. split; [apply firstn_le_length|].
  split; [intros H; apply firstn_all2; exact H|].
  split; [reflexivity|]. split; [apply tokens_space|].
  split; [apply tokens_last | apply tokens_word].
Qed.

(** ** Numbers *)

Lemma str_cons c s : str (String c s) = Ascii.byte_of_ascii c :: str s.
Proof. reflexivity. Qed.

Lemma digits_value_step acc k c s :
  byte.unsigned c = 48 + k -> 0 <= k <= 9 ->
  digits_value acc (c :: s) = digits_value (acc * 10 + k) s.
Proof.
  intros Hc Hk. cbn [digits_value]. unfold is_digit. rewrite Hc.
  replace (48 <=? 48 + k) with true by (symmetry; apply Z.leb_le; lia).
  replace (48 + k <=? 57) with true by (symmetry; apply Z.leb_le; lia).
  cbn [andb]. f_equal. lia.
Qed.

Lemma digits_value_end acc r : ends_number r -> digits_value acc r = acc.
Proof.
  intros H. destruct r as [|c r']; [reflexivity|].
  cbn [digits_value]. now rewrite (H c r' eq_refl).
Qed.

Ltac digit_step k :=
  cbn [NilEmpty.string_of_uint]; rewrite str_cons; cbn [app];
  rewrite (digits_value_step _ k) by (try reflexivity; lia).

Lemma digits_value_uint_acc u : forall p r,
  ends_number r ->
  digits_value (Z.pos p) (str (NilEmpty.string_of_uint u) ++ r)
  = Z.pos (Pos.of_uint_acc u p).
Proof.
  induction u as [|u IH|u IH|u IH|u IH|u IH|u IH|u IH|u IH|u IH|u IH];
    intros p r Hr; cbn [Pos.of_uint_acc].
  - cbn. now apply digits_value_end.
  - digit_step 0. rewrite <- (IH _ r Hr). f_equal. lia.
  - digit_step 1. rewrite <- (IH _ r Hr). f_equal. lia.
  - digit_step 2. rewrite <- (IH _ r Hr). f_equal. lia.
  - digit_step 3. rewrite <- (IH _ r Hr). f_equal. lia.
  - digit_step 4. rewrite <- (IH _ r Hr). f_equal. lia.
  - digit_step 5. rewrite <- (IH _ r Hr). f_equal. lia.
  - digit_step 6. rewrite <- (IH _ r Hr). f_equal. lia.
  - digit_step 7. rewrite <- (IH _ r Hr). f_equal. lia.
  - digit_step 8. rewrite <- (IH _ r Hr). f_equal. lia.
  - digit_step 9. rewrite <- (IH _ r Hr). f_equal. lia.
Qed.

Lemma digits_value_uint u : forall r,
  ends_number r ->
  digits_value 0 (str (NilEmpty.string_of_uint u) ++ r) = Z.of_uint u.
Proof.
  unfold Z.of_uint.
  induction u as [|u IH|u IH|u IH|u IH|u IH|u IH|u IH|u IH|u IH|u IH];
    intros r Hr; cbn [Pos.of_uint].
  - cbn. now apply digits_value_end.
  - digit_step 0. exact (IH r Hr).
  - digit_step 1. exact (digits_value_uint_acc u 1 r Hr).
  - digit_step 2. exact (digits_value_uint_acc u 2 r Hr).
  - digit_step 3. exact (digits_value_uint_acc u 3 r Hr).
  - digit_step 4. exact (digits_value_uint_acc u 4 r Hr).
  - digit_step 5. exact (digits_value_uint_acc u 5 r Hr).
  - digit_step 6. exact (digits_value_uint_acc u 6 r Hr).
  - digit_step 7. exact (digits_value_uint_acc u 7 r Hr).
  - digit_step 8. exact (digits_value_uint_acc u 8 r Hr).
  - digit_step 9. exact (digits_value_uint_acc u 9 r Hr).
Qed.

Lemma digits_value_uint0 u r :
  ends_number r ->
  digits_value 0 (str (NilZero.string_of_uint u) ++ r) = Z.of_uint u.
Proof.
  intros Hr. destruct u; try exact (digits_value_uint _ r Hr).
  unfold NilZero.string_of_uint. rewrite str_cons. cbn [app].
  rewrite (digits_value_step _ 0) by (try reflexivity; lia).
  cbn. now apply digits_value_end.
Qed.

(** The text of an unsigned number starts with a digit. *)
Lemma uint0_starts_with_digit u :
  exists c s, str (NilZero.string_of_uint u) = c :: s
              /\ is_space c = false
              /\ byte_eqb c Byte.x2d = false /\ byte_eqb c Byte.x2b = false.
Proof.
  destruct u; unfold NilZero.string_of_uint; cbn [NilEmpty.string_of_uint];
    rewrite str_cons; eexists; eexists; (split; [reflexivity|]);
    repeat split; reflexivity.
Qed.

Lemma strtol_fmt_d z r :
  ends_number r -> LONG_MIN <= z <= LONG_MAX -> strtol (fmt_d z ++ r) = z.
Proof.
  intros Hr Hz. unfold strtol, fmt_d. unfold LONG_MIN, LONG_MAX in *.
  pose proof (DecimalZ.of_to z) as Hof.
  destruct (Z.to_int z) as [u|u]; cbn [Z.of_int] in Hof;
    cbn [NilZero.string_of_int].
  - pose proof (digits_value_uint0 u r Hr) as Hv.
    destruct (uint0_starts_with_digit u) as (c & s & Hs & Hsp & Hm & Hp).
    rewrite Hs in Hv |- *. cbn [app skip_space] in Hv |- *.
    rewrite Hsp, Hm, Hp, Hv, Hof. lia.
  - rewrite str_cons. cbn [app skip_space].
    match goal with
    | |- context [Ascii.byte_of_ascii ?a] => change (Ascii.byte_of_ascii a) with Byte.x2d
    end.
    change (is_space Byte.x2d) with false. cbv iota.
    match goal with
    | |- context [if ?b then - _ else _] => change b with true
    end.
    cbv iota. rewrite (digits_value_uint0 u r Hr), Hof. lia.
Qed.

(** X12.  [atoi] reads back what [%d] prints: for every [int] the decimal
    text of the value, alone or followed by anything but a digit, is
    converted to the value itself, sign included. *)
Theorem atoi_reads_what_fmt_d_prints :
  forall z r, int_range z -> ends_number r -> atoi (fmt_d z ++ r) = z.
Proof.
  intros z r Hz Hr. unfold atoi.
  assert (Hl : LONG_MIN <= z <= LONG_MAX)
    by (unfold int_range, INT_MIN, INT_MAX, LONG_MIN, LONG_MAX in *; lia).
  rewrite (strtol_fmt_d z r Hr Hl). now apply to_int_id.
Qed.

Lemma atoi_fmt_d_witness :
  int_range (-42) /\ ends_number (str " x") /\ atoi (fmt_d (-42) ++ str " x") = -42.
Proof.
  assert (H1 : int_range (-42)) by (unfold int_range, INT_MIN, INT_MAX; lia).
  assert (H2 : ends_number (str " x")).
  { intros c r' H. injection H as <- _. reflexivity. }
  split; [exact H1|]. split; [exact H2|].
  exact (atoi_reads_what_fmt_d_prints (-42) (str " x") H1 H2).
Defined.

(** ** One turn of the worker *)

Lemma c_str_app_plain a b : plain a = true -> c_str (a ++ b) = a ++ c_str b.
Proof.
  induction a as [|c a IH]; intros H; [reflexivity|].
  cbn [plain forallb] in H. apply andb_true_iff in H. destruct H as [Hc Ha].
  apply andb_true_iff in Hc. destruct Hc as [_ Hc]. apply negb_true_iff in Hc.
  cbn [app c_str]. rewrite Hc. now rewrite (IH Ha).
Qed.

Lemma plain_no_lf_all s : plain s = true -> no_lf s = true.
Proof.
  unfold plain, no_lf. rewrite !forallb_forall. intros H c Hc.
  specialize (H c Hc). apply andb_true_iff in H. tauto.
Qed.

Lemma plain_no_nul s : plain s = true -> no_nul s = true.
Proof.
  unfold plain, no_nul. rewrite !forallb_forall. intros H c Hc.
  specialize (H c Hc). apply andb_true_iff in H. tauto.
Qed.

Lemma no_nul_c_str s : no_nul s = true -> c_str s = s.
Proof.
  intros H. pose proof (c_str_prefix s [] H (or_introl eq_refl)) as Hc.
  now rewrite app_nil_r in Hc.
Qed.

Lemma recv_line_incoming line rest :
  no_lf line = true -> (length line + 2 <= BUFFER_SIZE)%nat ->
  recv_line (map Rx (line ++ [LF]) ++ rest) BUFFER_SIZE
  = (Z.of_nat (length line + 1), line ++ [LF], rest).
Proof.
  intros Hlf Hlen. unfold recv_line.
  replace (0 <? BUFFER_SIZE - 1)%nat with true by reflexivity.
  rewrite recv_line_loop_line by (auto; cbn [length]; lia). reflexivity.
Qed.

Lemma no_crlf_no_lf line : no_crlf line = true -> no_lf line = true.
Proof.
  unfold no_lf, no_crlf. rewrite !forallb_forall.
  intros H c Hc. specialize (H c Hc). apply negb_true_iff in H.
  apply orb_false_iff in H. now rewrite (proj2 H).
Qed.

Lemma recv_line_one_line line rest :
  no_crlf line = true -> (length line + 2 <= BUFFER_SIZE)%nat ->
  recv_line (incoming line ++ rest) BUFFER_SIZE
  = (Z.of_nat (length line + 1), line ++ [LF], rest).
Proof.
  intros Hcr Hlen. unfold recv_line, incoming.
  replace (0 <? BUFFER_SIZE - 1)%nat with true by reflexivity.
  rewrite recv_line_loop_line
    by (auto using no_crlf_no_lf; cbn [length]; lia).
  reflexivity.
Qed.

Lemma received_text line :
  plain line = true -> no_crlf line = true ->
  trim_newline (c_str (line ++ [LF])) = line.
Proof.
  intros Hplain Hcr. rewrite (c_str_app_plain line [LF] Hplain).
  change (c_str [LF]) with [LF].
  rewrite (trim_newline_app line [LF] Hcr). cbn. apply app_nil_r.
Qed.

Lemma received_command_line line rest :
  plain line = true -> no_crlf line = true ->
  (length line + 2 <= BUFFER_SIZE)%nat ->
  received_command (incoming line ++ rest) = line.
Proof.
  intros Hplain Hcr Hlen. unfold received_command.
  rewrite recv_line_one_line by assumption. cbn [fst snd].
  rewrite received_text by assumption.
  unfold snprintf. apply firstn_all2. lia.
Qed.

(** A turn on a line of plain text that fits the buffer: the line is
    logged, its tokens go to the interpreter, and the answer, when there
    is one, goes out. *)
Lemma client_turn_on_line env p e line rest d :
  running e = true ->
  plain line = true -> no_crlf line = true ->
  (length line + 2 <= BUFFER_SIZE)%nat ->
  client_turn env p e (incoming line ++ rest) d
  = match dispatch env
            (set_log d (log_request (log_path d) (clock e) (peer_ip p)
                          (peer_port p) line))
            (tokenize line) with
    | Stuck d2 => (Crashed, rest, d2, [])
    | Returned (m, d2, stop) =>
        (if stop then Closing else Active, rest, d2, delivered (send_ok e) m)
    end.
Proof.
  intros Hrun Hplain Hcr Hlen. unfold client_turn.
  rewrite Hrun. cbn [negb].
  rewrite recv_line_one_line by assumption.
  replace (Z.of_nat (length line + 1) <=? 0) with false
    by (symmetry; apply Z.leb_gt; lia).
  rewrite received_text by assumption.
  replace (snprintf BUFFER_SIZE line) with line
    by (symmetry; unfold snprintf; apply firstn_all2; lia).
  reflexivity.
Qed.

(** ** What ends a session *)

Lemma stops_answered r : stops (answered r) = false.
Proof. destruct r as [[m d]|d]; reflexivity. Qed.

(** Only the [exit] branch leaves the loop. *)
Lemma dispatch_stop env d args :
  stops (dispatch env d args) = true
  <-> exists tok rest, args = tok :: rest /\ tok = str "exit".
Proof.
  unfold dispatch.
  destruct args as [|tok rest].
  - cbn. split; [discriminate|]. intros (t & r & H & _). discriminate.
  - change (arg (tok :: rest) 0) with tok.
    replace (length (tok :: rest) =? 0)%nat with false by reflexivity.
    destruct (streq tok (str "exit")) eqn:Hexit.
    + cbn [stops]. split; [|reflexivity]. intros _.
      exists tok, rest. split; [reflexivity|]. now apply streq_eq.
    + assert (Hno : ~ exists t r, tok :: rest = t :: r /\ t = str "exit").
      { intros (t & r & H & Ht). inversion H; subst.
        vm_compute in Hexit. discriminate. }
      assert (Hget : stops match get_trainer_cmd env d (tok :: rest) with
                           | Stuck d' => Stuck d'
                           | Returned m => Returned (snprintf BUFFER_SIZE m, d, false)
                           end = false)
        by (destruct (get_trainer_cmd env d (tok :: rest)); reflexivity).
      repeat lazymatch goal with
             | |- context [stops (if ?c then _ else _)] => destruct c
             end;
        rewrite ?stops_answered, ?Hget; cbn [stops];
        (split; [discriminate | intros H; now destruct Hno]).
Qed.

(** A line the interpreter does not come back from has [trainer] as its
    second word. *)
Lemma dispatch_stuck_word env d args d' :
  dispatch env d args = Stuck d' ->
  exists w rest, args = w :: str "trainer" :: rest.
Proof.
  unfold dispatch.
  assert (Hw : (2 <=? length args)%nat = true ->
               streq (arg args 1) (str "trainer") = true ->
               exists w rest, args = w :: str "trainer" :: rest).
  { intros Hn Ht. apply streq_eq in Ht.
    destruct args as [|w [|t rest]]; try discriminate.
    cbn in Ht. subst t. now exists w, rest. }
  assert (H4 : forall n, (4 <=? n)%nat = true -> (2 <=? n)%nat = true).
  { intros n H. apply Nat.leb_le in H. apply Nat.leb_le. lia. }
  assert (H3 : forall n, (n =? 3)%nat = true -> (2 <=? n)%nat = true).
  { intros n H. apply Nat.eqb_eq in H. subst n. reflexivity. }
  repeat lazymatch goal with
         | |- (if ?c then _ else _) = Stuck _ -> _ => destruct c eqn:?
         end; try discriminate; intros _;
    repeat match goal with
           | H : _ && _ = true |- _ => apply andb_true_iff in H; destruct H
           end; auto.
Qed.

(** A line whose first word is none of the command words. *)
Lemma dispatch_unknown_word env d tok rest :
  tok <> str "exit" -> tok <> str "get" -> tok <> str "post" ->
  tok <> str "put" -> tok <> str "delete" ->
  dispatch env d (tok :: rest) = Returned (str "Invalid command.", d, false).
Proof.
  intros H1 H2 H3 H4 H5. unfold dispatch.
  change (arg (tok :: rest) 0) with tok.
  assert (Hne : forall w, tok <> w -> streq tok w = false).
  { intros w Hw. destruct (streq tok w) eqn:E; [|reflexivity].
    apply streq_eq in E. contradiction. }
  rewrite !Hne by assumption.
  rewrite !andb_false_r. cbn [andb length Nat.eqb]. reflexivity.
Qed.

(** When a turn ends in [Closing]. *)
Lemma client_turn_closing env p e sock d :
  phase_of (client_turn env p e sock d) = Closing
  <-> running e = false
      \/ received_count sock <= 0
      \/ exists rest, tokenize (received_command sock) = str "exit" :: rest.
Proof.
  unfold phase_of, client_turn, received_count, received_command.
  destruct (running e); cbn [negb].
  2: { cbn [fst snd]. split; auto. }
  destruct (recv_line sock BUFFER_SIZE) as [[r buffer] sock']. cbn [fst snd].
  destruct (Z.leb_spec r 0) as [Hr|Hr].
  { cbn [fst snd]. split; auto. }
  set (cmd := snprintf BUFFER_SIZE (trim_newline (c_str buffer))).
  set (d1 := set_log d _).
  pose proof (dispatch_stop env d1 (tokenize cmd)) as Hstop.
  destruct (dispatch env d1 (tokenize cmd)) as [[[m d2] stop]|d2];
    cbn [fst snd stops] in *.
  - destruct stop.
    + split; [|reflexivity]. intros _. right. right.
      destruct (proj1 Hstop eq_refl) as (tok & rest & Heq & ->). now exists rest.
    + split; [discriminate|].
      intros [H|[H|(rest & H)]]; try discriminate; try lia.
      assert (false = true); [|discriminate].
      apply Hstop. now exists (str "exit"), rest.
  - split; [discriminate|].
    intros [H|[H|(rest & H)]]; try discriminate; try lia.
    assert (false = true); [|discriminate].
    apply Hstop. now exists (str "exit"), rest.
Qed.

(** A turn that does not come to its end worked on a line with [trainer]
    as its second word. *)
Lemma client_turn_crashed env p e sock d :
  phase_of (client_turn env p e sock d) = Crashed ->
  exists w rest, tokenize (received_command sock) = w :: str "trainer" :: rest.
Proof.
  unfold phase_of, client_turn, received_command.
  destruct (running e); cbn [negb fst snd]; [|discriminate].
  destruct (recv_line sock BUFFER_SIZE) as [[r buffer] sock']. cbn [fst snd].
  destruct (r <=? 0); cbn [fst snd]; [discriminate|].
  destruct (dispatch env _ _) as [[[m d2] stop]|d2] eqn:Hd; cbn [fst snd].
  - destruct stop; discriminate.
  - intros _. exact (dispatch_stuck_word _ _ _ _ Hd).
Qed.

(** C8 (amended).  One turn of the worker ends in [Closing] exactly when
    the [running] flag is cleared at the loop test, or [recv_line] returns
    0 or -1, or the first token of the line is [exit].  Whether the send of
    the answer succeeds changes neither the phase nor the files.  A turn
    that leaves the worker [Active] has answered: what went out is the
    text the interpreter returned, as far as the connection takes it, and
    the files are those the interpreter left.  A received line whose first
    word is not [exit] and whose second word is not [trainer] leaves the
    worker [Active]; in particular a line whose first word is none of the
    command words is answered with [Invalid command.] and a blank line
    with [Empty command.], and the next turn starts on what follows on the
    connection.  The only turns that end neither [Active] nor [Closing]
    are those the interpreter does not come back from, and their line has
    [trainer] as its second word. *)
Theorem session_closes_on_exit_or_receive_failure :
  forall env p e sock d,
    (phase_of (client_turn env p e sock d) = Closing
     <-> running e = false
         \/ received_count sock <= 0
         \/ exists rest, tokenize (received_command sock) = str "exit" :: rest)
    /\ (forall ok,
         phase_of (client_turn env p (mkTurn (running e) (clock e) ok) sock d)
           = phase_of (client_turn env p e sock d)
         /\ disk_of (client_turn env p (mkTurn (running e) (clock e) ok) sock d)
           = disk_of (client_turn env p e sock d))
    /\ (phase_of (client_turn env p e sock d) = Active ->
        exists m stop,
          dispatch env
            (set_log d (log_request (log_path d) (clock e) (peer_ip p) (peer_port p)
                          (trim_newline (c_str (snd (fst (recv_line sock BUFFER_SIZE)))))))
            (tokenize (received_command sock))
          = Returned (m, disk_of (client_turn env p e sock d), stop)
          /\ sent_of (client_turn env p e sock d) = delivered (send_ok e) m)
    /\ (running e = true -> 0 < received_count sock ->
        (forall rest, tokenize (received_command sock) <> str "exit" :: rest) ->
        (forall w rest, tokenize (received_command sock) <> w :: str "trainer" :: rest) ->
        phase_of (client_turn env p e sock d) = Active)
    /\ (forall line rest turns out,
          running e = true -> plain line = true -> no_crlf line = true ->
          (length line + 2 <= BUFFER_SIZE)%nat ->
          (tokenize line = []
           \/ exists tok more,
                tokenize line = tok :: more
                /\ tok <> str "exit" /\ tok <> str "get" /\ tok <> str "post"
                /\ tok <> str "put" /\ tok <> str "delete") ->
          let d1 := set_log d (log_request (log_path d) (clock e) (peer_ip p)
                                 (peer_port p) line) in
          let m := match tokenize line with
                   | [] => str "Empty command."
                   | _ :: _ => str "Invalid command."
                   end in
          client_turn env p e (incoming line ++ rest) d
          = (Active, rest, d1, delivered (send_ok e) m)
          /\ client_thread env p (e :: turns) (incoming line ++ rest) d out
             = client_thread env p turns rest d1 (out ++ delivered (send_ok e) m))
    /\ (phase_of (client_turn env p e sock d) = Crashed ->
        exists w rest, tokenize (received_command sock) = w :: str "trainer" :: rest).
Proof.
  intros env p e sock d.
  split; [apply client_turn_closing|].
  split; [|split; [|split; [|split; [|apply client_turn_crashed]]]].
  - intros ok. unfold phase_of, disk_of, client_turn. cbn [running clock send_ok].
    destruct (running e); cbn [negb fst snd]; [|auto].
    destruct (recv_line sock BUFFER_SIZE) as [[r buffer] sock'].
    destruct (r <=? 0); cbn [fst snd]; [auto|].
    destruct (dispatch env _ _) as [[[m d2] stop]|d2]; cbn [fst snd]; auto.
  - unfold phase_of, disk_of, sent_of, client_turn, received_command.
    destruct (running e); cbn [negb fst snd]; [|discriminate].
    destruct (recv_line sock BUFFER_SIZE) as [[r buffer] sock']. cbn [fst snd].
    destruct (r <=? 0); cbn [fst snd]; [discriminate|].
    destruct (dispatch env _ _) as [[[m d2] stop]|d2]; cbn [fst snd];
      [|discriminate].
    intros _. now exists m, stop.
  - intros Hrun Hrecv Hexit Htrainer.
    destruct (phase_of (client_turn env p e sock d)) eqn:Hph; [reflexivity| |].
    + apply client_turn_closing in Hph.
      destruct Hph as [H|[H|(rest & H)]].
      * rewrite Hrun in H. discriminate.
      * lia.
      * now destruct (Hexit rest).
    + apply client_turn_crashed in Hph. destruct Hph as (w & rest & H).
      now destruct (Htrainer w rest).
  - intros line rest turns out Hrun Hplain Hcr Hlen Hmal. cbv zeta.
    assert (Hturn : client_turn env p e (incoming line ++ rest) d
                    = (Active, rest,
                       set_log d (log_request (log_path d) (clock e) (peer_ip p)
                                    (peer_port p) line),
                       delivered (send_ok e)
                         match tokenize line with
                         | [] => str "Empty command."
                         | _ :: _ => str "Invalid command."
                         end)).
    { rewrite client_turn_on_line by assumption.
      destruct Hmal as [-> | (tok & more & -> & H1 & H2 & H3 & H4 & H5)].
      - reflexivity.
      - now rewrite dispatch_unknown_word by assumption. }
    split; [exact Hturn|].
    cbn [client_thread]. now rewrite Hturn.
Qed.

(** C8, as stated, fails on a send failure: with the outgoing side of the
    connection broken, [send_all] returns -1 for the answer to [hello],
    nothing reaches the peer, and the worker stays [Active]; in its next
    turn it receives and logs the line [get log 1] as if nothing had
    happened. *)
Lemma send_failure_keeps_session :
  let e := mkTurn true demo_clock false in
  let r := client_turn demo_env demo_peer e (incoming (str "hello")) demo_disk in
  let s := client_thread demo_env demo_peer [e; e]
             (incoming (str "hello") ++ incoming (str "get log 1")) demo_disk [] in
  answer_of (dispatch demo_env demo_disk (tokenize (str "hello")))
  = Some (str "Invalid command.")
  /\ send_all false (str "Invalid command.") = -1
  /\ phase_of r = Active
  /\ sent_of r = []
  /\ phase_of s = Active
  /\ log_path (disk_of s)
     = Some (log_line demo_clock (str "127.0.0.1") 51234 (str "hello")
             ++ log_line demo_clock (str "127.0.0.1") 51234 (str "get log 1")).
Proof. cbv zeta. repeat split; vm_compute; reflexivity. Qed.

(** ** The protocol *)

(** C2.  What the code does on [get pokemon <id>]: whatever the files and
    the key, the line splits into the three tokens, the interpreter takes
    the last branch of its chain, answers with the generic
    invalid-command text and reads no file; so does the worker on the line
    [get pokemon 1], a key the reference store has. *)
Theorem get_pokemon_is_invalid_command :
  (forall env d id,
      is_token id = true ->
      tokenize (str "get pokemon " ++ id) = [str "get"; str "pokemon"; id]
      /\ dispatch env d (tokenize (str "get pokemon " ++ id))
         = Returned (str "Invalid command.", d, false))
  /\ key_in 1 (map p_id (pokemons_of demo_pokemon)) = true
  /\ forall env,
       sent_of (client_turn env demo_peer (mkTurn true demo_clock true)
                  (incoming (str "get pokemon 1")) demo_disk)
       = str "Invalid command.".
Proof.
  split; [|split; [|intros env]; vm_compute; reflexivity].
  intros env d id Hid.
  assert (Htok : tokenize (str "get pokemon " ++ id) = [str "get"; str "pokemon"; id]).
  { unfold tokenize.
    change (str "get pokemon " ++ id)
      with (str "get" ++ SP :: str "pokemon" ++ SP :: id).
    rewrite (tokens_word (str "get")) by reflexivity.
    rewrite (tokens_word (str "pokemon")) by reflexivity.
    now rewrite (tokens_last id Hid). }
  split; [exact Htok|]. rewrite Htok.
  unfold dispatch.
  change (arg [str "get"; str "pokemon"; id] 0) with (str "get").
  change (arg [str "get"; str "pokemon"; id] 1) with (str "pokemon").
  vm_compute. reflexivity.
Qed.

Lemma get_pokemon_witness :
  is_token (str "25") = true
  /\ dispatch demo_env demo_disk (tokenize (str "get pokemon 25"))
     = Returned (str "Invalid command.", demo_disk, false).
Proof.
  split; [reflexivity|].
  exact (proj2 (proj1 get_pokemon_is_invalid_command demo_env demo_disk (str "25")
                  eq_refl)).
Defined.

(** C1.  What the code does with a response: the worker sends the text of
    [res.message] and nothing after it, neither a newline nor an [END]
    line.  For an unknown command the peer gets the 16 bytes of
    [Invalid command.]; for [get log 2] on a log that holds one entry it
    gets the two lines of the log.  The client loop fed with these bytes
    prints the full lines, never meets its end marker, and returns -1 when
    the input ends. *)
Theorem response_has_no_end_marker :
  (forall env d p c,
      sent_of (client_turn env p (mkTurn true c true) (incoming (str "hello")) d)
      = str "Invalid command.")
  /\ send_command true (map Rx (str "Invalid command.")) (str "hello")
     = (str "hello" ++ [LF], -1,
        str "[Client] Connection closed or error." ++ [LF], [])
  /\ (let before := log_line demo_clock (str "127.0.0.1") 51234 (str "hello") in
      let listing := before
                     ++ log_line demo_clock (str "127.0.0.1") 51234 (str "get log 2") in
      (forall env,
          sent_of (client_turn env demo_peer (mkTurn true demo_clock true)
                     (incoming (str "get log 2")) (set_log demo_disk (Some before)))
          = listing)
      /\ send_command true (map Rx listing) (str "get log 2")
         = (str "get log 2" ++ [LF], -1,
            listing ++ str "[Client] Connection closed or error." ++ [LF], [])).
Proof.
  split; [intros env d p c|split; [|split; [intros env|]]]; vm_compute; reflexivity.
Qed.

(** ** The trainer store *)

(** A turn on a line the interpreter does not come back from: the line is
    in the log, nothing is sent, and no later turn runs. *)
Lemma client_turn_stuck env p e line rest d d2 :
  running e = true ->
  plain line = true -> no_crlf line = true ->
  (length line + 2 <= BUFFER_SIZE)%nat ->
  dispatch env
    (set_log d (log_request (log_path d) (clock e) (peer_ip p) (peer_port p) line))
    (tokenize line) = Stuck d2 ->
  client_turn env p e (incoming line ++ rest) d = (Crashed, rest, d2, []).
Proof.
  intros Hrun Hplain Hcr Hlen Hd.
  rewrite client_turn_on_line by assumption. now rewrite Hd.
Qed.

Lemma client_thread_stuck env p e turns line rest d d2 out :
  running e = true ->
  plain line = true -> no_crlf line = true ->
  (length line + 2 <= BUFFER_SIZE)%nat ->
  dispatch env
    (set_log d (log_request (log_path d) (clock e) (peer_ip p) (peer_port p) line))
    (tokenize line) = Stuck d2 ->
  client_thread env p (e :: turns) (incoming line ++ rest) d out
  = (Crashed, rest, d2, out).
Proof.
  intros Hrun Hplain Hcr Hlen Hd. cbn [client_thread].
  rewrite (client_turn_stuck env p e line rest d d2) by assumption.
  now rewrite app_nil_r.
Qed.

(** [add_trainer_with_validation] and [update_trainer_with_validation]
    never report a success. *)
Lemma add_trainer_returns env pf fd name ids count r fd' :
  add_trainer_with_validation env pf fd name ids count = Returned (r, fd') ->
  r = -1 /\ fd' = fd.
Proof.
  intros H.
  destruct (add_trainer_cases env pf fd name ids count) as [E|(fd2 & E & _)];
    rewrite E in H; [|discriminate].
  injection H as <- <-. auto.
Qed.


Lemma refs_not_nil (refs : list bytes) :
  (1 <= length refs)%nat -> map atoi refs <> [].
Proof. destruct refs; cbn [length map]; [lia | discriminate]. Qed.

(** C3.  What the code does on a creation request with one to six
    references, whether they exist or not, when the Pokemon file opens:
    [validate_pokemon_ids] calls [get_pokemon_by_id], that calls
    [safe_read], and [safe_read] is under the macro of common.h the
    program's own [read], which calls itself before anything else.  So
    [add_trainer_with_validation] does not come back, the interpreter does
    not come back from the line, and the worker's turn ends with the line
    in the log, nothing sent, and the trainer file as it was: no key is
    assigned and nothing is appended.  When the function does return, it
    returns -1. *)
Theorem post_trainer_does_not_return :
  forall env d pdata name refs,
    pokemon_path d = Some pdata ->
    (1 <= length refs <= 6)%nat ->
    (forall fd,
        add_trainer_with_validation env (Some pdata) fd name (map atoi refs)
          (Z.of_nat (length refs)) = Stuck fd)
    /\ dispatch env d (str "post" :: str "trainer" :: name :: refs) = Stuck d
    /\ (forall p e line rest turns out,
          running e = true -> plain line = true -> no_crlf line = true ->
          (length line + 2 <= BUFFER_SIZE)%nat ->
          tokenize line = str "post" :: str "trainer" :: name :: refs ->
          let d1 := set_log d (log_request (log_path d) (clock e) (peer_ip p)
                                 (peer_port p) line) in
          client_turn env p e (incoming line ++ rest) d = (Crashed, rest, d1, [])
          /\ client_thread env p (e :: turns) (incoming line ++ rest) d out
             = (Crashed, rest, d1, out)
          /\ trainer_path d1 = trainer_path d)
    /\ (forall pf fd nm ids count r fd',
          add_trainer_with_validation env pf fd nm ids count = Returned (r, fd') ->
          r = -1 /\ fd' = fd).
Proof.
  intros env d pdata name refs Hp Hn.
  split; [|split; [|split]].
  - intros fd. apply add_trainer_stuck; [unfold MAX_POKEMON; lia|].
    apply refs_not_nil. lia.
  - exact (dispatch_post_stuck env d pdata name refs Hp Hn).
  - intros p e line rest turns out Hrun Hplain Hcr Hlen Htok. cbv zeta.
    assert (Hd : dispatch env
                   (set_log d (log_request (log_path d) (clock e) (peer_ip p)
                                 (peer_port p) line))
                   (tokenize line)
                 = Stuck (set_log d (log_request (log_path d) (clock e) (peer_ip p)
                                       (peer_port p) line))).
    { rewrite Htok. now apply (dispatch_post_stuck env _ pdata). }
    split; [now apply client_turn_stuck|].
    split; [now apply client_thread_stuck | reflexivity].
  - intros pf fd nm ids count r fd'. apply add_trainer_returns.
Qed.

Lemma post_trainer_witness :
  pokemon_path demo_disk = Some demo_pokemon
  /\ (1 <= length [str "1"; str "4"] <= 6)%nat
  /\ key_in 1 (map p_id (pokemons_of demo_pokemon)) = true
  /\ key_in 4 (map p_id (pokemons_of demo_pokemon)) = true
  /\ dispatch demo_env demo_disk (tokenize (str "post trainer Misty 1 4"))
     = Stuck demo_disk.
Proof.
  assert (Hn : (1 <= length [str "1"; str "4"] <= 6)%nat) by (cbn [length]; lia).
  split; [reflexivity|]. split; [exact Hn|].
  split; [reflexivity|]. split; [reflexivity|].
  exact (proj1 (proj2 (post_trainer_does_not_return demo_env demo_disk demo_pokemon
                         (str "Misty") [str "1"; str "4"] eq_refl Hn))).
Defined.

(** C4.  What the code does on a creation or update request with one to
    six references of which one is absent from the reference store: the
    lookup of the first reference does not come back, so neither does the
    request.  The trainer file is as it was, but no answer is returned: the
    worker's turn ends with nothing sent. *)
Theorem absent_reference_gets_no_answer :
  forall env d pdata name key refs,
    pokemon_path d = Some pdata ->
    (1 <= length refs <= 6)%nat ->
    (exists r, In r refs /\ key_in (atoi r) (map p_id (pokemons_of pdata)) = false) ->
    validate_pokemon_ids env (Some pdata) (map atoi refs) (Z.of_nat (length refs))
    = Stuck (Some (open_file pdata))
    /\ dispatch env d (str "post" :: str "trainer" :: name :: refs) = Stuck d
    /\ dispatch env d (str "put" :: str "trainer" :: key :: refs) = Stuck d
    /\ (forall p e line rest,
          running e = true -> plain line = true -> no_crlf line = true ->
          (length line + 2 <= BUFFER_SIZE)%nat ->
          tokenize line = str "post" :: str "trainer" :: name :: refs
          \/ tokenize line = str "put" :: str "trainer" :: key :: refs ->
          let r := client_turn env p e (incoming line ++ rest) d in
          phase_of r = Crashed
          /\ sent_of r = []
          /\ trainer_path (disk_of r) = trainer_path d).
Proof.
  intros env d pdata name key refs Hp Hn _.
  split; [|split; [|split]].
  - rewrite validate_pokemon_ids_cases.
    destruct (firstn_request (map atoi refs) (Z.of_nat (length refs)))
      as (i & rest & ->); [lia | apply refs_not_nil; lia | reflexivity].
  - exact (dispatch_post_stuck env d pdata name refs Hp Hn).
  - exact (dispatch_put_stuck env d pdata key refs Hp Hn).
  - intros p e line rest Hrun Hplain Hcr Hlen Htok. cbv zeta.
    set (d1 := set_log d (log_request (log_path d) (clock e) (peer_ip p)
                            (peer_port p) line)).
    assert (Hd : dispatch env d1 (tokenize line) = Stuck d1).
    { destruct Htok as [-> | ->].
      - now apply (dispatch_post_stuck env d1 pdata).
      - now apply (dispatch_put_stuck env d1 pdata). }
    rewrite (client_turn_stuck env p e line rest d d1) by assumption.
    repeat split.
Qed.

Lemma absent_reference_witness :
  pokemon_path demo_disk = Some demo_pokemon
  /\ key_in (atoi (str "99")) (map p_id (pokemons_of demo_pokemon)) = false
  /\ dispatch demo_env demo_disk (tokenize (str "post trainer Misty 1 99"))
     = Stuck demo_disk
  /\ dispatch demo_env demo_disk (tokenize (str "put trainer 1 1 99"))
     = Stuck demo_disk.
Proof.
  assert (Hn : (1 <= length [str "1"; str "99"] <= 6)%nat) by (cbn [length]; lia).
  assert (Ha : exists r, In r [str "1"; str "99"]
                         /\ key_in (atoi r) (map p_id (pokemons_of demo_pokemon)) = false).
  { exists (str "99"). split; [right; left; reflexivity | reflexivity]. }
  pose proof (absent_reference_gets_no_answer demo_env demo_disk demo_pokemon
                (str "Misty") (str "1") [str "1"; str "99"] eq_refl Hn Ha) as H.
  split; [reflexivity|]. split; [reflexivity|].
  split; [exact (proj1 (proj2 H)) | exact (proj1 (proj2 (proj2 H)))].
Defined.






(** ** The worker and the log *)

(** X14.  Every line the worker receives goes to the log before it is
    carried out, whatever it says: one turn on a line of plain text that
    fits the buffer appends to the log exactly the line [log_request]
    prints for it, with the peer's address and port and the command as
    received without its line end, and leaves what follows on the
    connection for the next turn. *)
Theorem received_line_is_logged :
  forall env p e line rest d l,
    running e = true ->
    plain line = true -> no_crlf line = true ->
    (length line + 2 <= BUFFER_SIZE)%nat ->
    log_path d = Some l ->
    let r := client_turn env p e (incoming line ++ rest) d in
    log_path (disk_of r)
    = Some (l ++ log_line (clock e) (peer_ip p) (peer_port p) line)
    /\ snd (fst (fst r)) = rest
    /\ received_command (incoming line ++ rest) = line.
Proof.
  intros env p e line rest d l Hrun Hplain Hcr Hlen Hlog. cbv zeta.
  rewrite client_turn_on_line by assumption.
  rewrite received_command_line by assumption.
  set (d1 := set_log d _).
  destruct (dispatch_files env d1 (tokenize line)) as (_ & _ & Hl).
  assert (Hd1 : log_path d1
                = Some (l ++ log_line (clock e) (peer_ip p) (peer_port p) line)).
  { subst d1. cbn [set_log log_path]. rewrite Hlog. reflexivity. }
  destruct (dispatch env d1 (tokenize line)) as [[[m d2] stop]|d2];
    cbn [files_after] in Hl; unfold disk_of; cbn [fst snd];
    rewrite Hl, Hd1; auto.
Qed.

Lemma received_line_witness :
  let r := client_turn demo_env demo_peer (mkTurn true demo_clock true)
             (incoming (str "hello") ++ incoming (str "exit")) demo_disk in
  log_path (disk_of r)
  = Some ([] ++ log_line demo_clock (str "127.0.0.1") 51234 (str "hello"))
  /\ snd (fst (fst r)) = incoming (str "exit")
  /\ received_command (incoming (str "hello") ++ incoming (str "exit")) = str "hello".
Proof.
  apply (received_line_is_logged demo_env demo_peer (mkTurn true demo_clock true)
           (str "hello") (incoming (str "exit")) demo_disk []);
    try reflexivity.
  apply Nat.leb_le. vm_compute. reflexivity.
Defined.

(** X16.  A [post] or [put] with more than [MAX_POKEMON] references is
    turned down by the interpreter itself: it answers with the limit,
    opens no file and leaves all three as they are, and the session goes
    on. *)
Theorem more_than_six_references_rejected :
  forall env d name refs,
    (6 < length refs)%nat ->
    dispatch env d (str "post" :: str "trainer" :: name :: refs)
    = Returned (str "Invalid command: Trainer cannot have more than 6 " ++ POKEMON_WORD
                ++ str ".", d, false)
    /\ dispatch env d (str "put" :: str "trainer" :: name :: refs)
       = Returned (str "Invalid command: Max " ++ POKEMON_WORD ++ str " = 6.", d, false).
Proof.
  intros env d name refs Hlen.
  assert (Hc : (Z.of_nat (length (str "post" :: str "trainer" :: name :: refs)) - 3
                >? MAX_POKEMON) = true).
  { cbn [length]. unfold MAX_POKEMON. apply Z.gtb_lt. lia. }
  assert (Hargc : (4 <=? length (str "post" :: str "trainer" :: name :: refs))%nat = true).
  { apply Nat.leb_le. cbn [length]. lia. }
  assert (H3 : (length (str "post" :: str "trainer" :: name :: refs) =? 3)%nat = false).
  { apply Nat.eqb_neq. cbn [length]. lia. }
  split.
  - unfold dispatch, post_trainer_cmd.
    change (arg (str "post" :: str "trainer" :: name :: refs) 0) with (str "post").
    change (arg (str "post" :: str "trainer" :: name :: refs) 1) with (str "trainer").
    rewrite Hc, Hargc, H3. reflexivity.
  - unfold dispatch, put_trainer_cmd.
    change (arg (str "put" :: str "trainer" :: name :: refs) 0) with (str "put").
    change (arg (str "put" :: str "trainer" :: name :: refs) 1) with (str "trainer").
    change (length (str "put" :: str "trainer" :: name :: refs))
      with (length (str "post" :: str "trainer" :: name :: refs)).
    rewrite Hc, Hargc, H3. reflexivity.
Qed.

Lemma more_than_six_witness :
  (6 < length (map str ["1"; "4"; "7"; "1"; "4"; "7"; "1"]%string))%nat
  /\ dispatch demo_env demo_disk
       (str "post" :: str "trainer" :: str "Ash"
        :: map str ["1"; "4"; "7"; "1"; "4"; "7"; "1"]%string)
     = Returned (str "Invalid command: Trainer cannot have more than 6 " ++ POKEMON_WORD
                 ++ str ".", demo_disk, false).
Proof.
  assert (H : (6 < length (map str ["1"; "4"; "7"; "1"; "4"; "7"; "1"]%string))%nat)
    by (cbn; lia).
  split; [exact H|].
  exact (proj1 (more_than_six_references_rejected demo_env demo_disk (str "Ash") _ H)).
Defined.

(** X17.  [get log <n>] with a count that is not a positive number (zero,
    negative, or no number at all) is answered as [get log 10]; and when
    the log cannot be opened or is empty the answer is the one text
    [Could not read log file.] *)
Theorem get_log_defaults_to_ten :
  forall env d w,
    atoi w <= 0 ->
    dispatch env d [str "get"; str "log"; w]
    = dispatch env d [str "get"; str "log"; str "10"]
    /\ (log_path d = None \/ log_path d = Some [] ->
        dispatch env d [str "get"; str "log"; w]
        = Returned (str "Could not read log file.", d, false)).
Proof.
  intros env d w Hw.
  assert (Hcmd : get_log_cmd d [str "get"; str "log"; w]
                 = get_log_cmd d [str "get"; str "log"; str "10"]).
  { unfold get_log_cmd. cbn [arg nth].
    replace (atoi w <=? 0) with true by (symmetry; apply Z.leb_le; exact Hw).
    reflexivity. }
  assert (Hd : forall x, dispatch env d [str "get"; str "log"; x]
                         = Returned (snprintf BUFFER_SIZE
                                       (get_log_cmd d [str "get"; str "log"; x]),
                                     d, false)) by reflexivity.
  split.
  - now rewrite !Hd, Hcmd.
  - intros Hlog. rewrite Hd. unfold get_log_cmd. cbn [arg nth].
    replace (atoi w <=? 0) with true by (symmetry; apply Z.leb_le; exact Hw).
    destruct Hlog as [-> | ->]; reflexivity.
Qed.

Lemma get_log_default_witness :
  atoi (str "all") <= 0
  /\ dispatch demo_env demo_disk [str "get"; str "log"; str "all"]
     = dispatch demo_env demo_disk [str "get"; str "log"; str "10"].
Proof.
  assert (H : atoi (str "all") <= 0) by (vm_compute; discriminate).
  split; [exact H|].
  exact (proj1 (get_log_defaults_to_ten demo_env demo_disk (str "all") H)).
Defined.

(** X30.  [get trainer], with or without a key: when the trainer file
    cannot be opened the answer says so; when it opens, the first
    [safe_read] of the scan does not come back, so there is no answer and
    the worker's turn ends with the line in the log and nothing sent. *)
Theorem get_trainer_does_not_return :
  forall env d rest,
    (trainer_path d = None ->
     dispatch env d (str "get" :: str "trainer" :: rest)
     = Returned (str "Cannot open trainer DB.", d, false))
    /\ (forall data, trainer_path d = Some data ->
          dispatch env d (str "get" :: str "trainer" :: rest) = Stuck d
          /\ forall p e line more,
               running e = true -> plain line = true -> no_crlf line = true ->
               (length line + 2 <= BUFFER_SIZE)%nat ->
               tokenize line = str "get" :: str "trainer" :: rest ->
               client_turn env p e (incoming line ++ more) d
               = (Crashed, more,
                  set_log d (log_request (log_path d) (clock e) (peer_ip p)
                               (peer_port p) line), [])).
Proof.
  intros env d rest. split.
  - intros Ht. unfold dispatch.
    change (arg (str "get" :: str "trainer" :: rest) 0) with (str "get").
    change (arg (str "get" :: str "trainer" :: rest) 1) with (str "trainer").
    cbn [length].
    replace (S (S (length rest)) =? 0)%nat with false by reflexivity.
    replace (2 <=? S (S (length rest)))%nat with true by reflexivity.
    change (streq (str "get") (str "exit")) with false.
    change (streq (str "get") (str "get")) with true.
    change (streq (str "trainer") (str "log")) with false.
    change (streq (str "trainer") (str "trainer")) with true.
    rewrite andb_false_r. cbn [andb]. cbv iota.
    now rewrite get_trainer_cmd_cases, Ht.
  - intros data Ht. split; [now apply (dispatch_get_trainer_stuck env d data)|].
    intros p e line more Hrun Hplain Hcr Hlen Htok.
    apply client_turn_stuck; try assumption.
    rewrite Htok. now apply (dispatch_get_trainer_stuck env _ data).
Qed.



(** ** The client and the channel *)

Lemma recv_reply_lines ls : forall fuel rest printed,
  Forall reply_line_ok ls -> (length ls < fuel)%nat ->
  recv_reply fuel (map Rx (lines_text ls ++ END_MARKER) ++ rest) printed
  = (0, printed ++ lines_text ls ++ [LF], rest).
Proof.
  induction ls as [|l ls IH]; intros fuel rest printed Hok Hfuel;
    (destruct fuel as [|k]; [cbn [length] in Hfuel; lia|]); cbn [recv_reply].
  - cbn [lines_text flat_map app]. unfold END_MARKER.
    rewrite recv_line_incoming;
      [|reflexivity | apply Nat.leb_le; vm_compute; reflexivity].
    reflexivity.
  - destruct (Forall_inv Hok) as (Hplain & Hlen & Hne).
    rewrite lines_text_cons.
    replace (map Rx ((l ++ LF :: lines_text ls) ++ END_MARKER) ++ rest)
      with (map Rx (l ++ [LF]) ++ (map Rx (lines_text ls ++ END_MARKER) ++ rest)).
    2: { rewrite app_assoc, <- map_app. f_equal. f_equal.
         rewrite <- !app_assoc. reflexivity. }
    rewrite recv_line_incoming by (auto using plain_no_lf_all).
    replace (Z.of_nat (length l + 1) <=? 0) with false
      by (symmetry; apply Z.leb_gt; lia).
    rewrite (c_str_app_plain l [LF] Hplain).
    change (c_str [LF]) with [LF].
    destruct (streq (l ++ [LF]) END_MARKER) eqn:Heq.
    { apply streq_eq in Heq. unfold END_MARKER in Heq.
      apply app_inv_tail in Heq. contradiction. }
    rewrite IH; [|exact (Forall_inv_tail Hok) | cbn [length] in Hfuel; lia].
    rewrite <- !app_assoc. reflexivity.
Qed.

(** X18.  The client against a reply that follows its protocol: when the
    lines of the reply are followed by the line [END], [send_command]
    sends the command with a newline, prints the lines in order and a
    final newline, returns 0 and leaves what comes after the marker on the
    connection for the next command.  When the send fails it returns -1
    without waiting for a reply. *)
Theorem client_reads_reply_up_to_end_marker :
  forall cmd ls rest sock,
    Forall reply_line_ok ls -> no_nul cmd = true ->
    send_command true (map Rx (lines_text ls ++ END_MARKER) ++ rest) cmd
    = (snprintf BUFFER_SIZE (cmd ++ [LF]), 0, lines_text ls ++ [LF], rest)
    /\ send_command false sock cmd = ([], -1, [], sock).
Proof.
  intros cmd ls rest sock Hok Hcmd.
  assert (Hbuf : c_str (snprintf BUFFER_SIZE (cmd ++ [LF]))
                 = snprintf BUFFER_SIZE (cmd ++ [LF])).
  { apply no_nul_c_str. unfold snprintf, no_nul in *. apply forallb_firstn.
    rewrite forallb_app, Hcmd. reflexivity. }
  assert (Hne : snprintf BUFFER_SIZE (cmd ++ [LF]) <> []).
  { unfold snprintf. destruct cmd; discriminate. }
  unfold send_command, send_all, delivered. rewrite Hbuf.
  destruct (snprintf BUFFER_SIZE (cmd ++ [LF])) as [|c s] eqn:Hs; [contradiction|].
  split.
  - replace (Z.of_nat (length (c :: s)) <? 0) with false
      by (symmetry; apply Z.ltb_ge; lia).
    rewrite recv_reply_lines; [reflexivity | exact Hok |].
    rewrite length_app, length_map, length_app.
    pose proof (length_lines_text ls). lia.
  - reflexivity.
Qed.

Lemma client_reply_witness :
  Forall reply_line_ok [str "Trainer 1 deleted."] /\ no_nul (str "delete trainer 1") = true
  /\ send_command true
       (map Rx (lines_text [str "Trainer 1 deleted."] ++ END_MARKER) ++ map Rx (str "next"))
       (str "delete trainer 1")
     = (snprintf BUFFER_SIZE (str "delete trainer 1" ++ [LF]), 0,
        lines_text [str "Trainer 1 deleted."] ++ [LF], map Rx (str "next")).
Proof.
  assert (H1 : Forall reply_line_ok [str "Trainer 1 deleted."]).
  { constructor; [|constructor]. split; [reflexivity|].
    split; [apply Nat.leb_le; vm_compute; reflexivity | discriminate]. }
  assert (H2 : no_nul (str "delete trainer 1") = true) by reflexivity.
  split; [exact H1|]. split; [exact H2|].
  exact (proj1 (client_reads_reply_up_to_end_marker (str "delete trainer 1")
                  [str "Trainer 1 deleted."] (map Rx (str "next")) [] H1 H2)).
Defined.

Lemma send_all_loop_inv sends : forall rest total wire r w,
  send_all_loop sends rest total wire = Some (r, w) ->
  (exists more left, w = wire ++ more /\ rest = more ++ left
                     /\ (r = -1 \/ (left = [] /\ r = Z.of_nat (total + length rest)))).
Proof.
  induction sends as [|e sends IH]; intros rest total wire r w H;
    destruct rest as [|c rest].
  - cbn in H. injection H as <- <-. exists [], [].
    rewrite app_nil_r. cbn [length]. rewrite Nat.add_0_r. auto.
  - discriminate.
  - cbn in H. injection H as <- <-. exists [], [].
    rewrite app_nil_r. cbn [length]. rewrite Nat.add_0_r. auto.
  - cbn [send_all_loop] in H. destruct e as [n|].
    + destruct (n =? 0)%nat.
      * injection H as <- <-. exists [], (c :: rest). rewrite app_nil_r. auto.
      * apply IH in H. destruct H as (more & left & -> & Hrest & Hr).
        set (k := Nat.min n (length (c :: rest))) in *.
        exists (firstn k (c :: rest) ++ more), left.
        split; [now rewrite app_assoc|]. split.
        { rewrite <- app_assoc, <- Hrest. symmetry. apply firstn_skipn. }
        destruct Hr as [Hr|[Hl Hr]]; [now left|right]. split; [exact Hl|].
        rewrite Hr. f_equal. rewrite length_skipn. lia.
    + injection H as <- <-. exists [], (c :: rest). rewrite app_nil_r. auto.
Qed.

Lemma send_all_loop_good sends : forall rest total wire,
  all_sent sends = true -> (length rest <= length sends)%nat ->
  send_all_loop sends rest total wire
  = Some (Z.of_nat (total + length rest), wire ++ rest).
Proof.
  induction sends as [|e sends IH]; intros rest total wire Hall Hlen;
    destruct rest as [|c rest]; cbn [send_all_loop].
  - cbn [length]. now rewrite Nat.add_0_r, app_nil_r.
  - cbn [length] in Hlen. lia.
  - cbn [length]. now rewrite Nat.add_0_r, app_nil_r.
  - cbn [all_sent forallb] in Hall. apply andb_true_iff in Hall.
    destruct Hall as [He Hall]. destruct e as [n|]; [|discriminate].
    apply negb_true_iff in He. rewrite He.
    set (k := Nat.min n (length (c :: rest))).
    assert (Hk : (1 <= k <= length (c :: rest))%nat).
    { apply Nat.eqb_neq in He. unfold k. cbn [length]. lia. }
    rewrite IH; [|exact Hall | rewrite length_skipn; cbn [length] in *; lia].
    rewrite length_skipn, <- app_assoc, firstn_skipn.
    do 2 f_equal. f_equal. lia.
Qed.

(** X22.  [send_all] with short writes: however the calls of [send] split
    the text, what reaches the peer is a beginning of the text in order;
    a return value other than -1 is the length of the text and then all of
    it has reached the peer; and when every call takes at least one byte,
    the loop ends within as many calls as the text has bytes, with the
    length as its value, which is the value and the delivery of a
    connection that is up. *)
Theorem send_all_delivers_text_in_order :
  forall sends buffer,
    (forall r w, send_all_calls sends buffer = Some (r, w) ->
       (exists left, c_str buffer = w ++ left)
       /\ (r <> -1 -> r = Z.of_nat (length (c_str buffer)) /\ w = c_str buffer))
    /\ (all_sent sends = true -> (length (c_str buffer) <= length sends)%nat ->
        send_all_calls sends buffer
        = Some (send_all true buffer, delivered true buffer)).
Proof.
  intros sends buffer. unfold send_all_calls. split.
  - intros r w H. apply send_all_loop_inv in H.
    destruct H as (more & left & Hw & Hrest & Hr). cbn [app] in Hw. subst w.
    split; [now exists left|].
    intros Hne. destruct Hr as [Hr|[-> Hr]]; [contradiction|].
    rewrite app_nil_r in Hrest. cbn [Nat.add] in Hr. now subst.
  - intros Hall Hlen. rewrite send_all_loop_good by assumption.
    unfold send_all, delivered. cbn [Nat.add app].
    destruct (c_str buffer); reflexivity.
Qed.

Lemma skipn_repeat_last {A : Type} (x : A) n : skipn n (repeat x (S n)) = [x].
Proof. induction n as [|n IH]; [reflexivity|exact IH]. Qed.

(** A value copied into a zeroed buffer of [n + 1] bytes: the C string in
    the buffer is the value, cut to [n] bytes. *)
Lemma c_str_strncpy_zeroed n v :
  c_str (strncpy (repeat NUL (S n)) v n) = firstn n (c_str v).
Proof.
  unfold strncpy, fit. rewrite skipn_repeat_last, firstn_pad, <- app_assoc.
  apply c_str_prefix.
  - apply forallb_firstn, c_str_no_nul.
  - right. destruct (n - length (c_str v))%nat; cbn [repeat app]; eauto.
Qed.

Lemma parse_client_loop_flags n : forall args host port gh gp,
  (length args <= n)%nat ->
  let r := parse_client_loop args host port gh gp in
  (2 * ((if snd (fst r) then 1 else 0) + (if snd r then 1 else 0))
   <= 2 * ((if gh then 1 else 0) + (if gp then 1 else 0)) + length args)%nat.
Proof.
  induction n as [|n IH]; intros args host port gh gp Hlen; cbv zeta.
  - destruct args; [cbn; lia | cbn [length] in Hlen; lia].
  - destruct args as [|a [|v rest]]; [cbn; lia | cbn; lia |].
    cbn [parse_client_loop]. cbn [length] in Hlen.
    destruct (streq a (str "-h")).
    + specialize (IH rest (strncpy host v 255) port true gp ltac:(lia)).
      cbv zeta iota in IH. cbn [length]. destruct gh; lia.
    + destruct (streq a (str "-p")).
      * specialize (IH rest host (strncpy port v 31) gh true ltac:(lia)).
        cbv zeta iota in IH. cbn [length]. destruct gp; lia.
      * specialize (IH (v :: rest) host port gh gp ltac:(cbn [length]; lia)).
        cbv zeta in IH. cbn [length parse_client_loop] in IH |- *. lia.
Qed.

(** X23.  The client needs both of its flags, each followed by a value:
    with fewer than four arguments after the program name
    [parse_client_arguments] returns 1; [-h <host> -p <port>] and
    [-p <port> -h <host>] both return 0 and leave in the zeroed buffers of
    [main] the host cut to 255 bytes and the port cut to 31; and an
    argument that is neither flag nor the value of one is passed over. *)
Theorem parse_client_arguments_needs_both_flags :
  forall argv host port prog h p x,
    ((length argv < 5)%nat -> fst (fst (parse_client_arguments argv host port)) = 1)
    /\ parse_client_arguments [prog; str "-h"; h; str "-p"; p] host port
       = (0, strncpy host h 255, strncpy port p 31)
    /\ parse_client_arguments [prog; str "-p"; p; str "-h"; h] host port
       = (0, strncpy host h 255, strncpy port p 31)
    /\ c_str (strncpy (repeat NUL 256) h 255) = firstn 255 (c_str h)
    /\ c_str (strncpy (repeat NUL 32) p 31) = firstn 31 (c_str p)
    /\ (x <> str "-h" -> x <> str "-p" ->
        parse_client_arguments (prog :: x :: argv) host port
        = parse_client_arguments (prog :: argv) host port).
Proof.
  intros argv host port prog h p x.
  split; [|split; [reflexivity|split; [reflexivity|split; [|split]]]].
  - intros Hlen. unfold parse_client_arguments.
    pose proof (parse_client_loop_flags (length (tl argv)) (tl argv) host port
                  false false (le_n _)) as H.
    cbv zeta in H.
    destruct (parse_client_loop (tl argv) host port false false) as [[[h' p'] gh] gp].
    cbn [fst snd] in *.
    assert (length (tl argv) < 4)%nat by (destruct argv; cbn [tl length] in *; lia).
    destruct gh, gp; cbn [negb orb]; try reflexivity; lia.
  - exact (c_str_strncpy_zeroed 255 h).
  - exact (c_str_strncpy_zeroed 31 p).
  - intros Hh Hp. unfold parse_client_arguments. cbn [tl].
    destruct argv as [|v rest]; [reflexivity|].
    cbn [parse_client_loop].
    destruct (streq x (str "-h")) eqn:E1; [apply streq_eq in E1; contradiction|].
    destruct (streq x (str "-p")) eqn:E2; [apply streq_eq in E2; contradiction|].
    reflexivity.
Qed.

(** ** The start of the server *)

Lemma main_args_loop_cons2 a v rest s :
  main_args_loop (a :: v :: rest) s
  = if streq a (str "-p") then
      main_args_loop rest
        (mkArgs (strncpy (a_port s) v 31) (a_pokemon s) (a_trainer s)
                (a_logname s) true (got_m s) (got_t s) (got_l s))
    else if streq a (str "-m") then
      main_args_loop rest
        (mkArgs (a_port s) (strncpy (a_pokemon s) v 255) (a_trainer s)
                (a_logname s) (got_p s) true (got_t s) (got_l s))
    else if streq a (str "-t") then
      main_args_loop rest
        (mkArgs (a_port s) (a_pokemon s) (strncpy (a_trainer s) v 255)
                (a_logname s) (got_p s) (got_m s) true (got_l s))
    else if streq a (str "-l") then
      main_args_loop rest
        (mkArgs (a_port s) (a_pokemon s) (a_trainer s)
                (strncpy (a_logname s) v 127) (got_p s) (got_m s) (got_t s) true)
    else main_args_loop (v :: rest) s.
Proof. reflexivity. Qed.

Lemma main_args_loop_flags n : forall args s,
  (length args <= n)%nat ->
  (2 * flags_seen (main_args_loop args s) <= 2 * flags_seen s + length args)%nat.
Proof.
  induction n as [|n IH]; intros args s Hlen.
  - destruct args; [cbn; lia | cbn [length] in Hlen; lia].
  - destruct args as [|a [|v rest]]; [cbn; lia | cbn; lia |].
    rewrite main_args_loop_cons2. cbn [length] in Hlen |- *.
    repeat match goal with
           | |- context [if streq a ?w then _ else _] => destruct (streq a w)
           end;
      match goal with
      | |- context [main_args_loop ?l ?s'] =>
          specialize (IH l s' ltac:(cbn [length]; lia));
          set (r := main_args_loop l s') in *
      end;
      unfold flags_seen in IH |- *;
      cbn [got_p got_m got_t got_l length] in IH |- *;
      destruct (got_p s), (got_m s), (got_t s), (got_l s); lia.
Qed.

Lemma length_strncpy dst src n :
  (n <= length dst)%nat -> length (strncpy dst src n) = length dst.
Proof.
  intros H. unfold strncpy. rewrite length_app, length_fit, length_skipn. lia.
Qed.

Lemma length_c_str s : (length (c_str s) <= length s)%nat.
Proof.
  induction s as [|c s IH]; cbn [c_str length]; [lia|].
  destruct (byte_eqb c NUL); cbn [length]; lia.
Qed.

Lemma main_args_loop_logname n : forall args s,
  (length args <= n)%nat -> length (a_logname s) = 128%nat ->
  length (a_logname (main_args_loop args s)) = 128%nat.
Proof.
  induction n as [|n IH]; intros args s Hlen Hs.
  - destruct args; [exact Hs | cbn [length] in Hlen; lia].
  - destruct args as [|a [|v rest]]; [exact Hs | exact Hs |].
    rewrite main_args_loop_cons2. cbn [length] in Hlen.
    repeat match goal with
           | |- context [if streq a ?w then _ else _] => destruct (streq a w)
           end;
      apply IH; cbn [length a_logname]; try lia; try exact Hs.
    rewrite length_strncpy; lia.
Qed.

(** X24.  The server starts only with all four of its flags, each followed
    by a value, so with fewer than eight arguments after the program name
    [main] prints the usage and returns 1.  With
    [-p <port> -m <pokemon> -t <trainers> -l <log>] it goes on with the
    port cut to 31 bytes, the Pokemon path cut to 255 and the trainer path
    cut to 255, each otherwise as given, except that the trainer path
    [trainer.bin] becomes [trainers.bin]; the log name is cut to 127 bytes
    and is the log path when it holds a slash, and is put under [data/]
    when it holds none.  Whatever the arguments, when [main] goes on the
    trainer file is never the name [trainer.bin] and the log path always
    holds a slash. *)
Theorem main_config_needs_four_flags :
  forall argv,
    ((length argv < 9)%nat -> main_config argv = None)
    /\ (forall c, main_config argv = Some c ->
          cfg_trainer c <> str "trainer.bin"
          /\ existsb (byte_eqb SLASH) (cfg_log c) = true
          /\ (let logname := c_str (a_logname (main_args_loop (tl argv) no_args)) in
              cfg_log c = if existsb (byte_eqb SLASH) logname then logname
                          else str "data/" ++ logname))
    /\ (forall prog P M T L,
          main_config [prog; str "-p"; P; str "-m"; M; str "-t"; T; str "-l"; L]
          = Some (mkConfig
                    (firstn 31 (c_str P))
                    (firstn 255 (c_str M))
                    (if streq (firstn 255 (c_str T)) (str "trainer.bin")
                     then str "trainers.bin" else firstn 255 (c_str T))
                    (if existsb (byte_eqb SLASH) (firstn 127 (c_str L))
                     then firstn 127 (c_str L)
                     else str "data/" ++ firstn 127 (c_str L))))
    /\ (forall prog P M L,
          option_map cfg_trainer
            (main_config [prog; str "-p"; P; str "-m"; M; str "-t"; str "trainer.bin";
                          str "-l"; L])
          = Some (str "trainers.bin"))
    /\ (forall prog P M T L,
          firstn 255 (c_str T) <> str "trainer.bin" ->
          option_map cfg_trainer
            (main_config [prog; str "-p"; P; str "-m"; M; str "-t"; T; str "-l"; L])
          = Some (firstn 255 (c_str T))).
Proof.
  intros argv.
  assert (Hfour : forall prog P M T L,
            main_config [prog; str "-p"; P; str "-m"; M; str "-t"; T; str "-l"; L]
            = Some (mkConfig
                      (firstn 31 (c_str P))
                      (firstn 255 (c_str M))
                      (if streq (firstn 255 (c_str T)) (str "trainer.bin")
                       then str "trainers.bin" else firstn 255 (c_str T))
                      (if existsb (byte_eqb SLASH) (firstn 127 (c_str L))
                       then firstn 127 (c_str L)
                       else str "data/" ++ firstn 127 (c_str L)))).
  { intros prog P M T L. unfold main_config. cbn [tl].
    rewrite main_args_loop_cons2.
    change (streq (str "-p") (str "-p")) with true. cbv iota.
    rewrite main_args_loop_cons2.
    change (streq (str "-m") (str "-p")) with false.
    change (streq (str "-m") (str "-m")) with true. cbv iota.
    rewrite main_args_loop_cons2.
    change (streq (str "-t") (str "-p")) with false.
    change (streq (str "-t") (str "-m")) with false.
    change (streq (str "-t") (str "-t")) with true. cbv iota.
    rewrite main_args_loop_cons2.
    change (streq (str "-l") (str "-p")) with false.
    change (streq (str "-l") (str "-m")) with false.
    change (streq (str "-l") (str "-t")) with false.
    change (streq (str "-l") (str "-l")) with true. cbv iota.
    cbn [main_args_loop got_p got_m got_t got_l a_port a_pokemon a_trainer a_logname
         no_args negb orb].
    rewrite (c_str_strncpy_zeroed 31 P), (c_str_strncpy_zeroed 255 M),
      (c_str_strncpy_zeroed 255 T), (c_str_strncpy_zeroed 127 L).
    pose proof (firstn_le_length 127 (c_str L)) as Hl.
    assert (Hkeep : snprintf 256 (firstn 127 (c_str L)) = firstn 127 (c_str L)).
    { unfold snprintf. apply firstn_all2. lia. }
    assert (Hdata : snprintf 256 (str "data/" ++ firstn 127 (c_str L))
                    = str "data/" ++ firstn 127 (c_str L)).
    { unfold snprintf. apply firstn_all2. rewrite length_app.
      change (length (str "data/")) with 5%nat. lia. }
    change (str "data/" ++ firstn 127 (c_str L))
      with (Byte.x64 :: Byte.x61 :: Byte.x74 :: Byte.x61 :: Byte.x2f
            :: firstn 127 (c_str L)) in Hdata |- *.
    rewrite Hkeep, Hdata. reflexivity. }
  assert (Hgen : ((length argv < 9)%nat -> main_config argv = None)
    /\ (forall c, main_config argv = Some c ->
          cfg_trainer c <> str "trainer.bin"
          /\ existsb (byte_eqb SLASH) (cfg_log c) = true
          /\ (let logname := c_str (a_logname (main_args_loop (tl argv) no_args)) in
              cfg_log c = if existsb (byte_eqb SLASH) logname then logname
                          else str "data/" ++ logname))).
  { unfold main_config.
    pose proof (main_args_loop_flags (length (tl argv)) (tl argv) no_args (le_n _)) as H.
    pose proof (main_args_loop_logname (length (tl argv)) (tl argv) no_args (le_n _)
                  eq_refl) as Hlog.
    set (s := main_args_loop (tl argv) no_args) in *.
    pose proof (length_c_str (a_logname s)) as Hc.
    split.
    - intros Hlen.
      assert (length (tl argv) < 8)%nat by (destruct argv; cbn [tl length] in *; lia).
      unfold flags_seen in H. cbn [no_args got_p got_m got_t got_l] in H.
      destruct (got_p s), (got_m s), (got_t s), (got_l s); cbn [negb orb];
        try reflexivity; lia.
    - intros c Hcfg.
      destruct (negb (got_p s) || negb (got_m s) || negb (got_t s) || negb (got_l s));
        [discriminate|].
      injection Hcfg as <-. cbv beta iota zeta delta [cfg_trainer cfg_log].
      assert (Hkeep : snprintf 256 (c_str (a_logname s)) = c_str (a_logname s)).
      { unfold snprintf. apply firstn_all2. lia. }
      assert (Hdata : snprintf 256 (str "data/" ++ c_str (a_logname s))
                      = str "data/" ++ c_str (a_logname s)).
      { unfold snprintf. apply firstn_all2. rewrite length_app.
        change (length (str "data/")) with 5%nat. lia. }
      change (str "data/" ++ c_str (a_logname s))
        with (Byte.x64 :: Byte.x61 :: Byte.x74 :: Byte.x61 :: Byte.x2f
              :: c_str (a_logname s)) in Hdata |- *.
      rewrite Hkeep, Hdata. split; [|split].
      + destruct (streq (c_str (a_trainer s)) (str "trainer.bin")) eqn:E.
        * discriminate.
        * intros Heq. rewrite Heq in E. discriminate.
      + destruct (existsb (byte_eqb SLASH) (c_str (a_logname s))) eqn:E.
        * exact E.
        * reflexivity.
      + reflexivity. }
  destruct Hgen as [H1 H2].
  split; [exact H1|]. split; [exact H2|]. split; [exact Hfour|]. split.
  - intros prog P M L. rewrite Hfour. reflexivity.
  - intros prog P M T L HT. rewrite Hfour. cbn [option_map cfg_trainer].
    destruct (streq (firstn 255 (c_str T)) (str "trainer.bin")) eqn:E;
      [apply streq_eq in E; contradiction | reflexivity].
Qed.

(** ** The client loop *)

Lemma fgets_buffer_line l rest :
  plain l = true -> (length l + 2 <= BUFFER_SIZE)%nat ->
  fgets BUFFER_SIZE (l ++ LF :: rest) = Some (l ++ [LF], rest).
Proof.
  intros Hp Hlen. unfold fgets.
  rewrite fgets_take_line by (auto; lia).
  now destruct l.
Qed.

Lemma prompts_snoc n : prompts n ++ str "> " = prompts (S n).
Proof.
  unfold prompts. induction n as [|n IH]; [reflexivity|].
  cbn [repeat concat] in *. rewrite <- app_assoc, IH. reflexivity.
Qed.

Lemma start_repl_loop_skips skips : forall k ok rest sock sent printed,
  Forall skipped_line skips ->
  start_repl_loop (length skips + k) ok (lines_text skips ++ rest) sock sent printed
  = start_repl_loop k ok rest sock sent (printed ++ prompts (length skips)).
Proof.
  induction skips as [|l skips IH]; intros k ok rest sock sent printed Hok.
  - cbn [length lines_text flat_map app Nat.add prompts repeat concat].
    now rewrite app_nil_r.
  - destruct (Forall_inv Hok) as (Hplain & Hcr & Hlen & Hshape).
    cbn [length Nat.add]. rewrite lines_text_cons, <- app_assoc. cbn [app].
    cbn [start_repl_loop].
    rewrite (fgets_buffer_line l _ Hplain Hlen).
    rewrite (c_str_app_plain l [LF] Hplain). change (c_str [LF]) with [LF].
    rewrite (trim_newline_app l [LF] Hcr).
    change (trim_newline [LF]) with (@nil byte). rewrite app_nil_r.
    assert (Hnext : start_repl_loop (length skips + k) ok (lines_text skips ++ rest)
                      sock sent (printed ++ str "> ")
                    = start_repl_loop k ok rest sock sent
                        (printed ++ prompts (S (length skips)))).
    { rewrite IH by exact (Forall_inv_tail Hok).
      rewrite <- app_assoc. reflexivity. }
    destruct Hshape as [-> | (r & ->)]; [exact Hnext|].
    change (byte_eqb HASH HASH) with true. cbv iota. exact Hnext.
Qed.

Lemma start_repl_loop_exit k ok more sock sent printed :
  start_repl_loop (S k) ok (str "exit" ++ LF :: more) sock sent printed
  = (sent ++ delivered ok (str "exit" ++ [LF]),
     (printed ++ str "> ") ++ str "[Client] Exiting." ++ [LF], more, sock).
Proof.
  cbn [start_repl_loop].
  rewrite (fgets_buffer_line (str "exit") more eq_refl)
    by (apply Nat.leb_le; vm_compute; reflexivity).
  reflexivity.
Qed.

(** X25.  The loop of the client passes over blank lines and lines that
    start with [#]: nothing is sent for them and nothing is read from the
    connection, only a prompt is printed for each.  The line [exit] after
    them sends [exit] with a newline, prints the farewell and ends the
    loop with the rest of the input unread; and when the input ends
    instead, the loop ends with nothing sent at all. *)
Theorem start_repl_skips_blank_and_comment_lines :
  forall ok skips more sock,
    Forall skipped_line skips ->
    start_repl ok (lines_text skips ++ str "exit" ++ LF :: more) sock
    = (delivered ok (str "exit" ++ [LF]),
       str "[Client] Type 'exit' to quit." ++ [LF] ++ prompts (S (length skips))
       ++ str "[Client] Exiting." ++ [LF],
       more, sock)
    /\ start_repl ok (lines_text skips) sock
       = ([],
          str "[Client] Type 'exit' to quit." ++ [LF] ++ prompts (S (length skips))
          ++ [LF] ++ str "[Client] End of input." ++ [LF],
          [], sock).
Proof.
  intros ok skips more sock Hok. unfold start_repl.
  pose proof (length_lines_text skips) as Hlen. split.
  - set (stdin := lines_text skips ++ str "exit" ++ LF :: more).
    assert (Hfuel : S (length stdin) = (length skips + S (length stdin - length skips))%nat).
    { unfold stdin. rewrite length_app. lia. }
    rewrite Hfuel. unfold stdin.
    rewrite (start_repl_loop_skips skips _ ok _ sock [] _ Hok).
    rewrite start_repl_loop_exit. cbn [app].
    rewrite <- (prompts_snoc (length skips)).
    repeat (progress cbn [app] || rewrite <- app_assoc). reflexivity.
  - assert (Hfuel : S (length (lines_text skips))
                    = (length skips + S (length (lines_text skips) - length skips))%nat)
      by lia.
    rewrite Hfuel.
    rewrite <- (app_nil_r (lines_text skips)) at 2.
    rewrite (start_repl_loop_skips skips _ ok [] sock [] _ Hok).
    cbn [start_repl_loop fgets].
    rewrite <- (prompts_snoc (length skips)).
    repeat (progress cbn [app] || rewrite <- app_assoc). reflexivity.
Qed.

Lemma start_repl_witness :
  Forall skipped_line [str "# batch test"; []]
  /\ start_repl true (lines_text [str "# batch test"; []]
                      ++ str "exit" ++ LF :: str "get trainer") []
     = (str "exit" ++ [LF],
        str "[Client] Type 'exit' to quit." ++ [LF] ++ prompts 3
        ++ str "[Client] Exiting." ++ [LF],
        str "get trainer", []).
Proof.
  assert (H : Forall skipped_line [str "# batch test"; []]).
  { assert (Hfit : forall l : bytes, (length l + 2 <=? BUFFER_SIZE)%nat = true ->
                     (length l + 2 <= BUFFER_SIZE)%nat)
      by (intros l; apply Nat.leb_le).
    constructor; [|constructor; [|constructor]].
    - split; [reflexivity|]. split; [reflexivity|].
      split; [apply Hfit; vm_compute; reflexivity|].
      right. now exists (str " batch test").
    - split; [reflexivity|]. split; [reflexivity|].
      split; [apply Hfit; vm_compute; reflexivity|]. now left. }
  split; [exact H|].
  exact (proj1 (start_repl_skips_blank_and_comment_lines true _ (str "get trainer") [] H)).
Defined.

(** ** Records and buffers *)

(** X26.  The packed [Trainer] struct and its 82 bytes in the file: a
    record written and read back is the same record, every block of 82
    bytes is a record whose fields are within their C types, and writing
    back a record as it was read gives the same bytes, so rewriting a
    record in place or copying it to another file loses nothing; and
    every file is the bytes of the records a scan meets, followed by less
    than one record. *)
Theorem trainer_record_round_trip :
  forall t c data,
    length (encode_trainer t) = sizeof_Trainer
    /\ (wf_trainer t -> decode_trainer (encode_trainer t) = t)
    /\ (length c = sizeof_Trainer ->
        wf_trainer (decode_trainer c) /\ encode_trainer (decode_trainer c) = c)
    /\ (exists tl, data = store_bytes (trainers_of data) ++ tl
                   /\ (length tl < sizeof_Trainer)%nat).
Proof.
  intros t c data. split; [apply length_encode_trainer|].
  split; [apply decode_encode_trainer|]. split.
  - intros Hc. split; [now apply wf_decode_trainer | now apply encode_decode_trainer].
  - destruct (trainers_view data) as (tl & Heq & Htl & _). now exists tl.
Qed.

Lemma recv_line_loop_bounds sock : forall maxlen buffer,
  (length buffer < maxlen - 1)%nat -> no_lf buffer = true ->
  let '(r, buf, _) := recv_line_loop sock maxlen buffer in
  (length buf <= maxlen - 1)%nat
  /\ (r = 0 \/ r = -1
      \/ (r = Z.of_nat (length buf)
          /\ exists body c, buf = body ++ [c] /\ no_lf body = true
                            /\ (c = LF \/ length buf = (maxlen - 1)%nat))).
Proof.
  induction sock as [|e sock IH]; intros maxlen buffer Hlen Hlf.
  - cbn [recv_line_loop]. split; [lia|auto].
  - destruct e as [c| |]; cbn [recv_line_loop].
    + destruct (byte_eqb c LF) eqn:Hc.
      * split; [rewrite length_app; cbn [length]; lia|].
        right. right. split; [reflexivity|]. exists buffer, c.
        split; [reflexivity|]. split; [exact Hlf|]. left.
        unfold byte_eqb in Hc. now apply Byte.byte_dec_bl in Hc.
      * destruct (length (buffer ++ [c]) =? maxlen - 1)%nat eqn:Hfull.
        { apply Nat.eqb_eq in Hfull. split; [lia|].
          right. right. split; [reflexivity|]. exists buffer, c. auto. }
        apply Nat.eqb_neq in Hfull. apply IH.
        { rewrite length_app in *. cbn [length] in *. lia. }
        unfold no_lf in *. rewrite forallb_app, Hlf. cbn [forallb].
        now rewrite Hc.
    + now apply IH.
    + split; [lia|auto].
Qed.

(** X28.  [recv_line] never writes past its buffer and never returns more
    than one line: for a buffer of at least one byte, what it stores is at
    most [maxlen - 1] bytes, leaving room for the final NUL; its value is
    0, -1 or the number of bytes stored; and in the last case the bytes
    hold no newline before their last one, which is a newline unless the
    buffer is full. *)
Theorem recv_line_stays_within_buffer :
  forall sock maxlen,
    (1 <= maxlen)%nat ->
    let r := fst (fst (recv_line sock maxlen)) in
    let buf := snd (fst (recv_line sock maxlen)) in
    (length buf <= maxlen - 1)%nat
    /\ (r = 0 \/ r = -1
        \/ (r = Z.of_nat (length buf)
            /\ exists body c, buf = body ++ [c] /\ no_lf body = true
                              /\ (c = LF \/ length buf = (maxlen - 1)%nat))).
Proof.
  intros sock maxlen Hmax. cbv zeta. unfold recv_line.
  destruct (0 <? maxlen - 1)%nat eqn:Hpos.
  - apply Nat.ltb_lt in Hpos.
    pose proof (recv_line_loop_bounds sock maxlen [] Hpos eq_refl) as H.
    destruct (recv_line_loop sock maxlen []) as [[r buf] rest]. exact H.
  - cbn [fst snd length]. split; [lia|auto].
Qed.

Lemma recv_line_bound_witness :
  (1 <= 4)%nat
  /\ snd (fst (recv_line (map Rx (str "abcdef")) 4)) = str "abc"
  /\ (length (snd (fst (recv_line (map Rx (str "abcdef")) 4))) <= 4 - 1)%nat.
Proof.
  assert (H : (1 <= 4)%nat) by lia.
  split; [exact H|]. split; [reflexivity|].
  exact (proj1 (recv_line_stays_within_buffer (map Rx (str "abcdef")) 4 H)).
Defined.

Lemma length_strncat_room out s size :
  (length out <= size - 1)%nat ->
  (length (strncat out s (size - length out - 1)) <= size - 1)%nat.
Proof.
  intros H. unfold strncat. rewrite length_app, length_firstn. lia.
Qed.

Lemma cat_lines_room fuel : forall s outsz outbuf,
  (length outbuf <= outsz - 1)%nat ->
  (length (cat_lines fuel s outsz outbuf) <= outsz - 1)%nat.
Proof.
  induction fuel as [|k IH]; intros s outsz outbuf H; cbn [cat_lines]; [exact H|].
  destruct (fgets 1024 s) as [[buf rest]|]; [|exact H].
  apply IH, length_strncat_room, H.
Qed.

(** X29.  [read_last_n_lines] never writes past the buffer it is given:
    for a buffer of at least one byte and whatever the log holds (long
    lines and NUL bytes included) and whatever count is asked for, the
    text it leaves is at most [outsz - 1] bytes; its value is 0 or 1,
    and 0 when the log cannot be opened or is empty. *)
Theorem read_last_n_lines_stays_within_buffer :
  forall log outsz n,
    (1 <= outsz)%nat ->
    (length (snd (read_last_n_lines log outsz n)) <= outsz - 1)%nat
    /\ (fst (read_last_n_lines log outsz n) = 0
        \/ fst (read_last_n_lines log outsz n) = 1)
    /\ (log = None \/ log = Some [] -> fst (read_last_n_lines log outsz n) = 0).
Proof.
  intros log outsz n Hsz. unfold read_last_n_lines.
  destruct log as [l|].
  - destruct (count_lines (S (length l)) l 0 =? 0) eqn:Hc; cbn [fst snd].
    + split; [unfold snprintf; rewrite length_firstn; lia|]. auto.
    + split; [apply cat_lines_room; cbn [length]; lia|]. split; [auto|].
      intros [H|H]; [discriminate|]. injection H as ->. discriminate.
  - cbn [fst snd]. split; [unfold snprintf; rewrite length_firstn; lia|]. auto.
Qed.

Lemma read_last_n_lines_bound_witness :
  (1 <= 8)%nat
  /\ (length (snd (read_last_n_lines (Some (str "a long line of the log")) 8 3))
      <= 8 - 1)%nat.
Proof.
  assert (H : (1 <= 8)%nat) by lia.
  split; [exact H|].
  exact (proj1 (read_last_n_lines_stays_within_buffer
                  (Some (str "a long line of the log")) 8 3 H)).
Defined.

